(** * Write ingestion core: precision handling, tenant resolution and the
      generated typed arrays.

    Shallow embedding of
      - [servicesv2/write/server.go]  (package [write]: [handleWrite],
        [parsePoints], [findTenantV2], [findTenantV1], [findOrganization],
        [findBucket]);
      - [pkg/data/gen/arrays.gen.go.tmpl] (package [gen]: [new<T>ArrayLen],
        [Encode], [Copy]).

    The handler talks to directory and storage services through Go
    interfaces.  A handler method is embedded as a finite tree of service
    calls ([Prog]); running a tree against an implementation of the
    interfaces yields the returned value, the final state of the services
    and the list of calls that were made, in order.

    Go slices are embedded as headers (pointer, length, capacity) over a
    store of cells, so that the reuse of a destination's backing storage by
    [Copy] is visible. *)

From Stdlib Require Import String Ascii List ZArith Lia Bool Arith.
Import ListNotations.

#[local] Open Scope list_scope.
#[local] Open Scope string_scope.

(* ===================================================================== *)
(** * Part I. The model                                                   *)
(* ===================================================================== *)

(** ** Errors and results *)

(** Modelled from the spec: the platform error of package [influxdb], which
    is not part of the sources at hand.  An error carries the text returned
    by its [Error()] method and the code that [influxdb.ErrorCode] reads. *)
Record error : Type := mkError { Error : string; ErrorCode : string }.

(** Modelled from the spec: the NotFound kind, [influxdb.ENotFound]. *)
Definition ENotFound : string := "not found".

(** Modelled from the spec: the code [influxdb.ErrorCode] gives to an error
    that is not a platform error, [influxdb.EInternal]. *)
Definition EInternal : string := "internal error".

(** [fmt.Errorf] with the message already formatted. *)
Definition Errorf (msg : string) : error :=
  {| Error := msg; ErrorCode := EInternal |}.

(** [io.EOF]. *)
Definition EOF : error := Errorf "EOF".

(** A Go pair [(v, err)] of which the caller reads [v] only when [err] is
    [nil]. *)
Inductive result (A : Type) : Type :=
| Ok (a : A)
| Err (e : error).
Arguments Ok {A} a.
Arguments Err {A} e.

(** ** Data of package [influxdb] *)

(** [influxdb.ID] is a [uint64]. *)
Definition ID : Type := N.

(** Modelled from the spec: Organization [{ID, Name}]. *)
Record Organization : Type :=
  { org_ID : ID; org_Name : string }.

(** Modelled from the spec: Bucket [{ID, Name, OrganizationID}]. *)
Record Bucket : Type :=
  { bucket_ID : ID; bucket_Name : string; bucket_OrganizationID : ID }.

(** Modelled from the spec: LegacyMapping
    [{Database, RetentionPolicy, OrganizationID, BucketID}]. *)
Record DBRPMappingV2 : Type :=
  { Database : string; RetentionPolicy : string;
    OrganizationID : ID; BucketID : ID }.

(** The filters are structs of pointers; a [nil] field is [None]. *)
Record OrganizationFilter : Type :=
  { of_ID : option ID; of_Name : option string }.

Record BucketFilter : Type :=
  { bf_OrganizationID : option ID; bf_ID : option ID;
    bf_Name : option string }.

Record DBRPMappingFilterV2 : Type :=
  { ff_Database : option string; ff_RetentionPolicy : option string }.

(** Modelled from the spec: Point [{measurement, tags, fields, timestamp}]. *)
Record Point : Type :=
  { measurement : string; tags : list (string * string);
    fields : list (string * string); timestamp : Z }.

Definition bytes : Type := list Byte.byte.

(** [time.Time], as nanoseconds. *)
Definition Time : Type := Z.

(** An [io.ReadCloser]: a handle on a stream owned by the runtime. *)
Definition Reader : Type := nat.

(** What the handler takes from outside its package without going through
    a service: the [%q] verb of [fmt] and [influxdb.IDFromString]. *)
Class Platform : Type :=
  { fmt_q : string -> string;
    IDFromString : string -> result ID }.

(** ** The request *)

Record Request : Type :=
  { Query : list (string * string);    (* r.URL.Query(), in order *)
    Header : list (string * string);   (* r.Header, canonical keys *)
    ContentLength : Z;
    Body : Reader }.

(** [url.Values.Get] and [http.Header.Get]: the first value stored under
    [key], the empty string when there is none. *)
Fixpoint Get (vs : list (string * string)) (key : string) : string :=
  match vs with
  | [] => ""
  | (k, v) :: rest => if String.eqb k key then v else Get rest key
  end.

(** What [handleWrite] leaves in the [http.ResponseWriter]: either
    [w.WriteHeader(status)] or [h.api.Err(w, r, err)]. *)
Inductive Response : Type :=
| WriteHeader (status : Z)
| apiErr (err : error).

Definition StatusOK : Z := 200.
Definition StatusNoContent : Z := 204.

(** ** Precision (server.go, lines 78-99) *)

Section Precision.
Context `{Platform}.

Definition errPrecisionV2 (precision : string) : error :=
  Errorf ("invalid precision " ++ fmt_q precision ++ " (use ns, us, ms or s)").

Definition errPrecisionV1 (precision : string) : error :=
  Errorf ("invalid precision " ++ fmt_q precision
          ++ " (use n, u, ms, s, m or h)").

(** First [switch], lines 79-90. *)
Definition precisionStage1 (precision : string) : result string :=
  if String.eqb precision "ns" then Ok "n"
  else if String.eqb precision "us" then Ok "u"
  else if String.eqb precision "ms" || String.eqb precision "s"
          || String.eqb precision "" then Ok precision
  else Err (errPrecisionV2 precision).

(** Second [switch], lines 92-99. *)
Definition precisionStage2 (precision : string) : result string :=
  if String.eqb precision "" || String.eqb precision "n"
     || String.eqb precision "ns" || String.eqb precision "u"
     || String.eqb precision "ms" || String.eqb precision "s"
     || String.eqb precision "m" || String.eqb precision "h"
  then Ok precision
  else Err (errPrecisionV1 precision).

(** Both stages in sequence, as [handleWrite] runs them. *)
Definition normalizePrecision (precision : string) : result string :=
  match precisionStage1 precision with
  | Err err => Err err
  | Ok precision => precisionStage2 precision
  end.

(** The InvalidPrecision kind: one of the two errors built above. *)
Definition InvalidPrecision (e : error) : Prop :=
  exists p, e = errPrecisionV2 p \/ e = errPrecisionV1 p.
End Precision.

(** ** Service calls *)

(** The calls a handler method can make: the methods of the service
    interfaces held by [WriteHandler], and the package-level functions
    [parsePoints] uses on the request body. *)
Inductive Call : Type :=
| call_FindOrganization (filter : OrganizationFilter)
| call_FindOrganizationByID (id : ID)
| call_FindBucket (filter : BucketFilter)
| call_FindBucketByID (id : ID)
| call_FindMany (filter : DBRPMappingFilterV2)
| call_WritePoints (orgID bucketID : ID) (points : list Point)
| call_gzipNewReader (body : Reader)
| call_ReadFrom (body : Reader)
| call_Now
| call_ParsePointsWithPrecision (buf : bytes) (now : Time) (precision : string).

(** What each call hands back. *)
Definition Resp (c : Call) : Type :=
  match c with
  | call_FindOrganization _ | call_FindOrganizationByID _ => result Organization
  | call_FindBucket _ | call_FindBucketByID _ => result Bucket
  | call_FindMany _ => result (list DBRPMappingV2)
  | call_WritePoints _ _ _ => option error
  | call_gzipNewReader _ => result Reader
  | call_ReadFrom _ => result bytes
  | call_Now => Time
  | call_ParsePointsWithPrecision _ _ _ => (list Point * option error)%type
  end.

(** A handler method: it returns, or makes a call and goes on with the
    answer. *)
Inductive Prog (R : Type) : Type :=
| Ret (r : R)
| Do (c : Call) (k : Resp c -> Prog R).
Arguments Ret {R} r.
Arguments Do {R} c k.

Fixpoint bind {A B : Type} (p : Prog A) (f : A -> Prog B) : Prog B :=
  match p with
  | Ret a => f a
  | Do c k => Do c (fun x => bind (k x) f)
  end.

Definition call (c : Call) : Prog (Resp c) := Do c Ret.

Declare Scope prog_scope.
Delimit Scope prog_scope with prog.
Notation "x <- p ;; q" := (bind p (fun x => q))
  (at level 61, p at next level, right associativity) : prog_scope.
Notation "' pat <- p ;; q" := (bind p (fun x => match x with pat => q end))
  (at level 61, pat pattern, p at next level, right associativity) : prog_scope.

(** ** The service interfaces, over a state [W] of the outside world *)

Record OrganizationService (W : Type) : Type :=
  { FindOrganization : OrganizationFilter -> W -> result Organization * W;
    FindOrganizationByID : ID -> W -> result Organization * W }.

Record BucketService (W : Type) : Type :=
  { FindBucket : BucketFilter -> W -> result Bucket * W;
    FindBucketByID : ID -> W -> result Bucket * W }.

Record DBRPMappingServiceV2 (W : Type) : Type :=
  { FindMany : DBRPMappingFilterV2 -> W -> result (list DBRPMappingV2) * W }.

Record Service (W : Type) : Type :=
  { WritePoints : ID -> ID -> list Point -> W -> option error * W }.

(** [type WriteHandler struct], without the router and the error
    renderer. *)
Record WriteHandler (W : Type) : Type :=
  { writeSvc : Service W;
    bucketSvc : BucketService W;
    orgSvc : OrganizationService W;
    dbrpSvc : DBRPMappingServiceV2 W }.

(** The handler together with the runtime functions [parsePoints] calls:
    [gzip.NewReader], [bytes.Buffer.ReadFrom], [time.Now] and
    [models.ParsePointsWithPrecision]. *)
Record System (W : Type) : Type :=
  { handler : WriteHandler W;
    gzip_NewReader : Reader -> W -> result Reader * W;
    buf_ReadFrom : Reader -> W -> result bytes * W;
    time_Now : W -> Time * W;
    models_ParsePointsWithPrecision :
      bytes -> Time -> string -> list Point * option error }.

Arguments FindOrganization {W} _ _ _.
Arguments FindOrganizationByID {W} _ _ _.
Arguments FindBucket {W} _ _ _.
Arguments FindBucketByID {W} _ _ _.
Arguments FindMany {W} _ _ _.
Arguments WritePoints {W} _ _ _ _ _.
Arguments writeSvc {W} _.
Arguments bucketSvc {W} _.
Arguments orgSvc {W} _.
Arguments dbrpSvc {W} _.
Arguments handler {W} _.
Arguments gzip_NewReader {W} _ _ _.
Arguments buf_ReadFrom {W} _ _ _.
Arguments time_Now {W} _ _.
Arguments models_ParsePointsWithPrecision {W} _ _ _ _.

(** One call against the system. *)
Definition perform {W : Type} (s : System W) (c : Call) : W -> Resp c * W :=
  match c return W -> Resp c * W with
  | call_FindOrganization f => FindOrganization (orgSvc (handler s)) f
  | call_FindOrganizationByID id => FindOrganizationByID (orgSvc (handler s)) id
  | call_FindBucket f => FindBucket (bucketSvc (handler s)) f
  | call_FindBucketByID id => FindBucketByID (bucketSvc (handler s)) id
  | call_FindMany f => FindMany (dbrpSvc (handler s)) f
  | call_WritePoints o b ps => WritePoints (writeSvc (handler s)) o b ps
  | call_gzipNewReader body => gzip_NewReader s body
  | call_ReadFrom body => buf_ReadFrom s body
  | call_Now => time_Now s
  | call_ParsePointsWithPrecision buf now p =>
      fun w => (models_ParsePointsWithPrecision s buf now p, w)
  end.

(** The outcome of running a method: what it returned, the state of the
    world it left, and the calls it made, first to last. *)
Record Outcome (W R : Type) : Type :=
  { value : R; final : W; calls : list Call }.
Arguments value {W R} _.
Arguments final {W R} _.
Arguments calls {W R} _.

Fixpoint run {W R : Type} (s : System W) (p : Prog R) (w : W) : Outcome W R :=
  match p with
  | Ret r => {| value := r; final := w; calls := [] |}
  | Do c k =>
      let xw := perform s c w in
      let o := run s (k (fst xw)) (snd xw) in
      {| value := value o; final := final o; calls := c :: calls o |}
  end.

(** ** Tenant resolution and the write handler (server.go) *)

Section Handler.
Context `{Platform}.
#[local] Open Scope prog_scope.

(** [findOrganization], lines 202-220. *)
Definition findOrganization (r : Request) : Prog (result Organization) :=
  let organization := Get (Query r) "org" in
  let filter :=
    if negb (String.eqb organization "") then
      match IDFromString organization with
      | Ok id => {| of_ID := Some id; of_Name := None |}
      | Err _ => {| of_ID := None; of_Name := Some organization |}
      end
    else {| of_ID := None; of_Name := None |} in
  let reqID := Get (Query r) "org_id" in
  if negb (String.eqb reqID "") then
    match IDFromString reqID with
    | Err err => Ret (Err err)
    | Ok id =>
        call (call_FindOrganization {| of_ID := Some id; of_Name := of_Name filter |})
    end
  else call (call_FindOrganization filter).

(** [findBucket], lines 222-240. *)
Definition findBucket (r : Request) (orgID : ID) : Prog (result Bucket) :=
  let bucket := Get (Query r) "bucket" in
  let byName :=
    call (call_FindBucket {| bf_OrganizationID := Some orgID;
                             bf_ID := None;
                             bf_Name := Some bucket |}) in
  match IDFromString bucket with
  | Ok id =>
      b <- call (call_FindBucket {| bf_OrganizationID := Some orgID;
                                    bf_ID := Some id;
                                    bf_Name := None |}) ;;
      match b with
      | Err err =>
          if negb (String.eqb (ErrorCode err) ENotFound) then Ret (Err err)
          else byName
      | Ok b => Ret (Ok b)
      end
  | Err _ => byName
  end.

(** [findTenantV2], lines 159-171. *)
Definition findTenantV2 (r : Request) : Prog (result (Organization * Bucket)) :=
  org <- findOrganization r ;;
  match org with
  | Err err => Ret (Err err)
  | Ok org =>
      bucket <- findBucket r (org_ID org) ;;
      match bucket with
      | Err err => Ret (Err err)
      | Ok bucket => Ret (Ok (org, bucket))
      end
  end.

Definition errDBRP (db rp : string) : error :=
  Errorf ("failed for find DBRP mapping for db:" ++ fmt_q db
          ++ ", rp:" ++ fmt_q rp).

(** [findTenantV1], lines 173-200.  The pattern [[m]] is the test
    [len(dbrps) != 1] followed by the reads of [dbrps[0]]. *)
Definition findTenantV1 (r : Request) : Prog (result (Organization * Bucket)) :=
  let db := Get (Query r) "db" in
  let rp := Get (Query r) "rp" in
  dbrps <- call (call_FindMany {| ff_Database := Some db;
                                  ff_RetentionPolicy := Some rp |}) ;;
  match dbrps with
  | Err err => Ret (Err err)
  | Ok [m] =>
      org <- call (call_FindOrganizationByID (OrganizationID m)) ;;
      match org with
      | Err err => Ret (Err err)
      | Ok org =>
          bucket <- call (call_FindBucketByID (BucketID m)) ;;
          match bucket with
          | Err err => Ret (Err err)
          | Ok bucket => Ret (Ok (org, bucket))
          end
      end
  | Ok _ => Ret (Err (errDBRP db rp))
  end.

(** [parsePoints], lines 131-157, from [buf.ReadFrom(body)] on.  The
    capacity hint taken from [ContentLength] does not change what is read.
    A [nil] slice of points is the empty list. *)
Definition readAndParse (body : Reader) (precision : string)
  : Prog (list Point * option error) :=
  bs <- call (call_ReadFrom body) ;;
  match bs with
  | Err err => Ret ([], Some err)
  | Ok buf =>
      now <- call call_Now ;;
      call (call_ParsePointsWithPrecision buf now precision)
  end.

(** [parsePoints], lines 131-157. *)
Definition parsePoints (r : Request) (precision : string)
  : Prog (list Point * option error) :=
  if String.eqb (Get (Header r) "Content-Encoding") "gzip" then
    b <- call (call_gzipNewReader (Body r)) ;;
    match b with
    | Err err => Ret ([], Some err)
    | Ok b => readAndParse b precision
    end
  else readAndParse (Body r) precision.

(** [handleWrite], lines 111-128: parse and write, once the tenant is
    known. *)
Definition parseAndWrite (r : Request) (precision : string)
  (org : Organization) (bucket : Bucket) : Prog Response :=
  pe <- parsePoints r precision ;;
  match snd pe with
  | Some err =>
      if String.eqb (Error err) "EOF" && Nat.eqb (length (fst pe)) 0
      then Ret (WriteHeader StatusOK)
      else Ret (apiErr err)
  | None =>
      werr <- call (call_WritePoints (org_ID org) (bucket_ID bucket) (fst pe)) ;;
      match werr with
      | Some err => Ret (apiErr err)
      | None => Ret (WriteHeader StatusNoContent)
      end
  end.

(** [handleWrite], lines 101-109: the tenant, current scheme first; the
    error kept is the current scheme's. *)
Definition findTenant (r : Request) : Prog (result (Organization * Bucket)) :=
  t2 <- findTenantV2 r ;;
  match t2 with
  | Ok t => Ret (Ok t)
  | Err err =>
      t1 <- findTenantV1 r ;;
      match t1 with
      | Err v1err => Ret (Err err)
      | Ok t => Ret (Ok t)
      end
  end.

(** [handleWrite], lines 76-129. *)
Definition handleWrite (r : Request) : Prog Response :=
  match normalizePrecision (Get (Query r) "precision") with
  | Err err => Ret (apiErr err)
  | Ok precision =>
      t <- findTenant r ;;
      match t with
      | Err err => Ret (apiErr err)
      | Ok (org, bucket) => parseAndWrite r precision org bucket
      end
  end.

(** The calls that only the legacy scheme makes. *)
Definition isLegacyCall (c : Call) : bool :=
  match c with
  | call_FindMany _ | call_FindOrganizationByID _ | call_FindBucketByID _ => true
  | _ => false
  end.

(** No call of the legacy scheme among [cs]. *)
Definition noLegacy (cs : list Call) : bool :=
  forallb (fun c => negb (isLegacyCall c)) cs.

End Handler.

(** ** Typed arrays (arrays.gen.go.tmpl) *)

(** One instantiation of the template: the value type [{{.Type}}] and its
    zero value. *)
Class Variant : Type :=
  { T : Type;
    zeroT : T }.

(** What the Go runtime chooses when [append] has to grow a slice: the
    capacity of the new backing array, from the old capacity and the number
    of elements needed.  It is never less than what is needed. *)
Class GoRuntime : Type :=
  { growcap : nat -> nat -> nat;
    growcap_ge : forall oldcap needed, needed <= growcap oldcap needed }.

Section Arrays.
Context `{Variant} `{GoRuntime}.
#[local] Open Scope nat_scope.

(** A memory cell holds an [int64] or a [{{.Type}}]. *)
Inductive cell : Type :=
| I64 (z : Z)
| Val (v : T).

(** The store: cells by address, and the first address never handed out. *)
Record Heap : Type := { mem : nat -> cell; brk : nat }.

(** A slice header. *)
Record slice : Type := { ptr : nat; len : nat; cap : nat }.

(** [cursors.<T>Array]: [Timestamps []int64] and [Values []{{.Type}}]. *)
Record Array : Type := { Timestamps : slice; Values : slice }.

(** The elements of a slice, [s[0] .. s[len(s)-1]]. *)
Definition elems (h : Heap) (s : slice) : list cell :=
  map (mem h) (seq (ptr s) (len s)).

(** The cells [p .. p + len(xs) - 1] overwritten with [xs]. *)
Definition store (m : nat -> cell) (p : nat) (xs : list cell) : nat -> cell :=
  fun a =>
    if (p <=? a) && (a <? p + length xs) then nth (a - p) xs (m a) else m a.

(** [make([]E, n)] for an element type whose zero value is [zero]. *)
Definition make (zero : cell) (n : nat) (h : Heap) : slice * Heap :=
  ({| ptr := brk h; len := n; cap := n |},
   {| mem := store (mem h) (brk h) (repeat zero n); brk := brk h + n |}).

(** [s[:0]]. *)
Definition reslice0 (s : slice) : slice :=
  {| ptr := ptr s; len := 0; cap := cap s |}.

(** [append(s, xs...)], [xs] being read before anything is written: in
    place when the capacity suffices, into a new backing array otherwise. *)
Definition append (zero : cell) (s : slice) (xs : list cell) (h : Heap)
  : slice * Heap :=
  let n := len s + length xs in
  if n <=? cap s then
    ({| ptr := ptr s; len := n; cap := cap s |},
     {| mem := store (mem h) (ptr s + len s) xs; brk := brk h |})
  else
    let c := growcap (cap s) n in
    ({| ptr := brk h; len := n; cap := c |},
     {| mem := store (store (mem h) (brk h) (repeat zero c)) (brk h)
                     (elems h s ++ xs);
        brk := brk h + c |}).

(** [new<T>ArrayLen], lines 19-26.  [make] panics on a negative length;
    [None] is the panic.  The store has no upper limit: running out of
    memory is not modelled. *)
Definition newArrayLen (sz : Z) (h : Heap) : option (Array * Heap) :=
  if (sz <? 0)%Z then None
  else
    let n := Z.to_nat sz in
    let th := make (I64 0) n h in
    let vh := make (Val zeroT) n (snd th) in
    Some ({| Timestamps := fst th; Values := fst vh |}, snd vh).

(** [Copy], lines 32-35.  [dst] is the struct [Copy] is given a pointer
    to; the struct returned is what that pointer holds afterwards.  The
    second line reads [a.Values] from the store left by the first. *)
Definition Copy (a : Array) (dst : Array) (h : Heap) : Array * Heap :=
  let th := append (I64 0) (reslice0 (Timestamps dst))
                   (elems h (Timestamps a)) h in
  let vh := append (Val zeroT) (reslice0 (Values dst))
                   (elems (snd th) (Values a)) (snd th) in
  ({| Timestamps := fst th; Values := fst vh |}, snd vh).

(** Modelled from the spec: the block encoder [tsm1.Encode<T>ArrayBlock],
    which is not part of the sources at hand.  It reads the array and
    appends the compressed form to the buffer it is given, or fails. *)
Definition BlockEncoder : Type :=
  list cell -> list cell -> bytes -> result bytes.

(** [Encode], lines 28-30. *)
Definition Encode (enc : BlockEncoder) (a : Array) (b : bytes) (h : Heap)
  : result bytes * (Array * Heap) :=
  (enc (elems h (Timestamps a)) (elems h (Values a)) b, (a, h)).

(** Timestamps and Values have the same length. *)
Definition parallel (a : Array) : Prop :=
  len (Timestamps a) = len (Values a).

(** The addresses a slice can reach, and those of its elements. *)
Definition storage (s : slice) : nat * nat := (ptr s, ptr s + cap s).
Definition extent (s : slice) : nat * nat := (ptr s, ptr s + len s).

(** Two address ranges [lo, hi) that share no address. *)
Definition apart (r1 r2 : nat * nat) : Prop :=
  fst r1 = snd r1 \/ fst r2 = snd r2 \/ snd r1 <= fst r2 \/ snd r2 <= fst r1.

(** A slice made of cells that were handed out, not longer than its
    capacity. *)
Definition allocated (h : Heap) (s : slice) : Prop :=
  len s <= cap s /\ ptr s + cap s <= brk h.

(** The destination's storage shares no cell with the source's elements,
    and its two fields share none with each other. *)
Definition separate (a dst : Array) : Prop :=
  apart (storage (Timestamps dst)) (extent (Timestamps a)) /\
  apart (storage (Timestamps dst)) (extent (Values a)) /\
  apart (storage (Values dst)) (extent (Timestamps a)) /\
  apart (storage (Values dst)) (extent (Values a)) /\
  apart (storage (Timestamps dst)) (storage (Values dst)).

Definition allocatedArray (h : Heap) (a : Array) : Prop :=
  allocated h (Timestamps a) /\ allocated h (Values a).

End Arrays.

(** ** Kinds of calls *)

(** The call to the storage-write service. *)
Definition isWrite (c : Call) : bool :=
  match c with
  | call_WritePoints _ _ _ => true
  | _ => false
  end.

(** The calls [parsePoints] makes on the request body. *)
Definition isBodyCall (c : Call) : bool :=
  match c with
  | call_gzipNewReader _ | call_ReadFrom _ | call_Now
  | call_ParsePointsWithPrecision _ _ _ => true
  | _ => false
  end.

(** The calls to the organization, bucket and mapping directories. *)
Definition isDirectoryCall (c : Call) : bool :=
  match c with
  | call_FindOrganization _ | call_FindOrganizationByID _
  | call_FindBucket _ | call_FindBucketByID _ | call_FindMany _ => true
  | _ => false
  end.

(** A lookup of a bucket by filter within the organization [orgID]. *)
Definition isBucketLookupIn (orgID : ID) (c : Call) : Prop :=
  exists f, c = call_FindBucket f /\ bf_OrganizationID f = Some orgID.

(** ** The outbound HTTP client (client.go) *)

(** The round trippers the package builds.  [http.DefaultTransport] has
    no TLS configuration of its own; the other [http.Transport] is the one
    written out in [DefaultTransportInsecure], of which the TLS setting and
    the pool sizes are kept. *)
Record http_Transport : Type :=
  { ForceAttemptHTTP2 : bool;
    MaxIdleConns : Z;
    IdleConnTimeout : Z;                   (* seconds *)
    TLSHandshakeTimeout : Z;               (* seconds *)
    ExpectContinueTimeout : Z;             (* seconds *)
    InsecureSkipVerify : bool }.           (* TLSClientConfig *)

Inductive RoundTripper : Type :=
| http_DefaultTransport
| http_TransportOf (t : http_Transport)
| SpanTransport (base : RoundTripper).

(** [var DefaultTransport], line 164. *)
Definition DefaultTransport : RoundTripper :=
  SpanTransport http_DefaultTransport.

(** [var DefaultTransportInsecure], lines 169-186. *)
Definition DefaultTransportInsecure : RoundTripper :=
  SpanTransport
    (http_TransportOf
       {| ForceAttemptHTTP2 := true;
          MaxIdleConns := 100;
          IdleConnTimeout := 90;
          TLSHandshakeTimeout := 10;
          ExpectContinueTimeout := 1;
          InsecureSkipVerify := true |}).

(** [http.Client], of which only the transport is set. *)
Record http_Client : Type := { Transport : RoundTripper }.

(** [httpClient], lines 188-193. *)
Definition httpClient (scheme : string) (insecure : bool) : http_Client :=
  if String.eqb scheme "https" && insecure
  then {| Transport := DefaultTransportInsecure |}
  else {| Transport := DefaultTransport |}.

(** [NewClient], lines 143-145. *)
Definition NewClient (scheme : string) (insecure : bool) : http_Client :=
  httpClient scheme insecure.

(** Whether the certificate check is switched off on the transport that
    ends up doing the round trip: [SpanTransport.RoundTrip], lines 155-160,
    hands the request to its base. *)
Fixpoint skipsVerify (t : RoundTripper) : bool :=
  match t with
  | http_DefaultTransport => false
  | http_TransportOf t => InsecureSkipVerify t
  | SpanTransport base => skipsVerify base
  end.

(** [url.URL], the parts used here. *)
Record URL : Type :=
  { Scheme : string; Host : string; Path : string; RawQuery : string }.

(** The options of package [httpc] that [NewHTTPClient] builds;
    [WithStatusFn_CheckError] is [httpc.WithStatusFn(CheckError)], and
    [callerOpt] stands for an option value made elsewhere. *)
Inductive ClientOptFn : Type :=
| WithAddr (addr : string)
| WithContentType (ct : string)
| WithHTTPClient (c : http_Client)
| WithInsecureSkipVerify (b : bool)
| WithStatusFn_CheckError
| WithAuthToken (token : string)
| callerOpt (n : nat).

(** What the client takes from outside its package: [url.Parse] and
    [httpc.New], with the client type of [httpc]. *)
Class ClientDeps : Type :=
  { httpc_Client : Type;
    url_Parse : string -> result URL;
    httpc_New : list ClientOptFn -> result httpc_Client }.

Section Client.
Context `{ClientDeps}.
#[local] Open Scope list_scope.

(** [NewHTTPClient], lines 43-61. *)
Definition NewHTTPClient (addr token : string) (insecureSkipVerify : bool)
  (opts : list ClientOptFn) : result httpc_Client :=
  match url_Parse addr with
  | Err err => Err err
  | Ok u =>
      let defaultOpts :=
        [ WithAddr addr;
          WithContentType "application/json";
          WithHTTPClient (NewClient (Scheme u) insecureSkipVerify);
          WithInsecureSkipVerify insecureSkipVerify;
          WithStatusFn_CheckError ] in
      let defaultOpts :=
        if negb (String.eqb token "")
        then defaultOpts ++ [WithAuthToken token]
        else defaultOpts in
      httpc_New (defaultOpts ++ opts)
  end.

End Client.

(** ** Auxiliary functions used to state and test the properties *)

(** The last two characters of a string (the whole string when it is
    shorter). *)
Fixpoint last2 (s : string) : string :=
  match s with
  | EmptyString => EmptyString
  | String c s' =>
      match s' with
      | String _ (String _ _) => last2 s'
      | _ => s
      end
  end.

(** *** A platform to run the model on *)

Definition hexDigit (c : ascii) : option N :=
  let n := N_of_ascii c in
  if (48 <=? n)%N && (n <=? 57)%N then Some (n - 48)%N
  else if (97 <=? n)%N && (n <=? 102)%N then Some (n - 87)%N
  else None.

Fixpoint hexDecode (s : string) (acc : N) : option N :=
  match s with
  | EmptyString => Some acc
  | String c s' =>
      match hexDigit c with
      | Some d => hexDecode s' (16 * acc + d)%N
      | None => None
      end
  end.

Definition errInvalidID : error :=
  {| Error := "invalid ID"; ErrorCode := "invalid" |}.

(** Sixteen lower-case hexadecimal digits, not all zero. *)
Definition demoIDFromString (s : string) : result ID :=
  if Nat.eqb (String.length s) 16 then
    match hexDecode s 0 with
    | Some 0%N | None => Err errInvalidID
    | Some n => Ok n
    end
  else Err errInvalidID.

Definition dquote : string := String "034"%char EmptyString.

#[local] Instance demoPlatform : Platform :=
  { fmt_q := fun s => dquote ++ s ++ dquote;
    IDFromString := demoIDFromString }.

(** *** An in-memory system to run the handler on *)

Record Directory : Type :=
  { orgs : list Organization;
    buckets : list Bucket;
    dbrps : list DBRPMappingV2;
    down : bool;                           (* the directories are unreachable *)
    bodies : list bytes;                   (* the streams, by handle *)
    clock : Time;
    written : list (ID * ID * list Point) }.

Definition errNotFound (what : string) : error :=
  {| Error := what ++ " not found"; ErrorCode := ENotFound |}.

Definition errUnavailable : error :=
  {| Error := "service unavailable"; ErrorCode := "unavailable" |}.

Definition matches {A : Type} (eqb : A -> A -> bool) (want : option A) (have : A)
  : bool :=
  match want with
  | Some x => eqb x have
  | None => true
  end.

Definition lookup {A : Type} (what : string) (p : A -> bool) (l : list A)
  (d : Directory) : result A * Directory :=
  if down d then (Err errUnavailable, d)
  else match find p l with
       | Some x => (Ok x, d)
       | None => (Err (errNotFound what), d)
       end.

Definition demoOrgs : OrganizationService Directory :=
  {| FindOrganization := fun f d =>
       lookup "organization"
         (fun o => matches N.eqb (of_ID f) (org_ID o)
                   && matches String.eqb (of_Name f) (org_Name o)) (orgs d) d;
     FindOrganizationByID := fun id d =>
       lookup "organization" (fun o => N.eqb id (org_ID o)) (orgs d) d |}.

Definition demoBuckets : BucketService Directory :=
  {| FindBucket := fun f d =>
       lookup "bucket"
         (fun b => matches N.eqb (bf_OrganizationID f) (bucket_OrganizationID b)
                   && matches N.eqb (bf_ID f) (bucket_ID b)
                   && matches String.eqb (bf_Name f) (bucket_Name b))
         (buckets d) d;
     FindBucketByID := fun id d =>
       lookup "bucket" (fun b => N.eqb id (bucket_ID b)) (buckets d) d |}.

Definition demoDBRPs : DBRPMappingServiceV2 Directory :=
  {| FindMany := fun f d =>
       if down d then (Err errUnavailable, d)
       else (Ok (filter (fun m => matches String.eqb (ff_Database f) (Database m)
                                  && matches String.eqb (ff_RetentionPolicy f)
                                       (RetentionPolicy m)) (dbrps d)), d) |}.

Definition demoWrites : Service Directory :=
  {| WritePoints := fun o b ps d =>
       (None,
        {| orgs := orgs d; buckets := buckets d; dbrps := dbrps d;
           down := down d; bodies := bodies d; clock := clock d;
           written := (o, b, ps) :: written d |}) |}.

(** A stand-in for the line-protocol parser: nothing to read is "EOF"; a
    body that starts with byte 0 is malformed; one that starts with byte 1
    gives a point and then "EOF"; any other body gives a point. *)
Definition demoParse (buf : bytes) (now : Time) (precision : string)
  : list Point * option error :=
  let point := {| measurement := "cpu"; tags := [];
                  fields := [("value", "1")]; timestamp := now |} in
  match buf with
  | [] => ([], Some EOF)
  | Byte.x00 :: _ => ([], Some (Errorf "unable to parse"))
  | Byte.x01 :: _ => ([point], Some EOF)
  | _ => ([point], None)
  end.

Definition demoSystem : System Directory :=
  {| handler := {| writeSvc := demoWrites; bucketSvc := demoBuckets;
                   orgSvc := demoOrgs; dbrpSvc := demoDBRPs |};
     gzip_NewReader := fun body d => (Ok body, d);
     buf_ReadFrom := fun body d => (Ok (nth body (bodies d) []), d);
     time_Now := fun d => (clock d, d);
     models_ParsePointsWithPrecision := demoParse |}.

(** One organization with one bucket; "mydb/autogen" maps to them,
    "old/autogen" maps to an organization that is gone, and "dup/autogen"
    is mapped twice.  Stream 0 is empty, stream 1 holds a point, stream 2
    is malformed, stream 3 holds a point and breaks off. *)
Definition demoDir : Directory :=
  {| orgs := [ {| org_ID := 1%N; org_Name := "myorg" |} ];
     buckets := [ {| bucket_ID := 2%N; bucket_Name := "mybucket";
                     bucket_OrganizationID := 1%N |} ];
     dbrps := [ {| Database := "mydb"; RetentionPolicy := "autogen";
                   OrganizationID := 1%N; BucketID := 2%N |};
                {| Database := "old"; RetentionPolicy := "autogen";
                   OrganizationID := 9%N; BucketID := 2%N |};
                {| Database := "dup"; RetentionPolicy := "autogen";
                   OrganizationID := 1%N; BucketID := 2%N |};
                {| Database := "dup"; RetentionPolicy := "autogen";
                   OrganizationID := 1%N; BucketID := 2%N |} ];
     down := false;
     bodies := [ []; [Byte.x63; Byte.x70; Byte.x75]; [Byte.x00]; [Byte.x01] ];
     clock := 1700000000%Z;
     written := [] |}.

Definition demoDirDown : Directory :=
  {| orgs := orgs demoDir; buckets := buckets demoDir; dbrps := dbrps demoDir;
     down := true; bodies := bodies demoDir; clock := clock demoDir;
     written := [] |}.

Definition request (q : list (string * string)) (body : Reader) : Request :=
  {| Query := q; Header := []; ContentLength := 0; Body := body |}.

(** A request that announces a gzip body. *)
Definition gzipRequest (q : list (string * string)) (body : Reader) : Request :=
  {| Query := q; Header := [("Content-Encoding", "gzip")];
     ContentLength := 0; Body := body |}.

(** The same system with a gzip reader that, like [gzip.NewReader], fails
    with "EOF" on a stream that holds nothing. *)
Definition demoSystemGzip : System Directory :=
  {| handler := handler demoSystem;
     gzip_NewReader := fun body d =>
       match nth body (bodies d) [] with
       | [] => (Err EOF, d)
       | _ => (Ok body, d)
       end;
     buf_ReadFrom := buf_ReadFrom demoSystem;
     time_Now := time_Now demoSystem;
     models_ParsePointsWithPrecision := demoParse |}.

(** *** A store to run the arrays on *)

(** The Integer instantiation, [{{.Type}}] being [int64]. *)
#[local] Instance demoVariant : Variant := {| T := Z; zeroT := 0%Z |}.

(** A runtime that doubles the capacity, or takes what is needed when that
    is more. *)
#[local] Instance demoRuntime : GoRuntime :=
  {| growcap := fun oldcap needed => Nat.max needed (2 * oldcap);
     growcap_ge := fun oldcap needed => Nat.le_max_l needed (2 * oldcap) |}.

(** Thirty-two cells handed out; cell [a] holds the timestamp [100 + a]. *)
Definition demoHeap : Heap :=
  {| mem := fun a => I64 (100 + Z.of_nat a); brk := 32 |}.

Definition sliceAt (p n c : nat) : slice := {| ptr := p; len := n; cap := c |}.

(** Three sources, of lengths 3, 1 and 2. *)
Definition src1 : Array :=
  {| Timestamps := sliceAt 0 3 4; Values := sliceAt 4 3 4 |}.
Definition src2 : Array :=
  {| Timestamps := sliceAt 8 1 1; Values := sliceAt 10 1 1 |}.
Definition src3 : Array :=
  {| Timestamps := sliceAt 12 2 2; Values := sliceAt 14 2 2 |}.

(** A destination of its own, already holding two elements. *)
Definition ownDst : Array :=
  {| Timestamps := sliceAt 16 2 2; Values := sliceAt 20 2 2 |}.

(** A destination cut out of the first source:
    [Timestamps: src1.Timestamps[1:2]], with the capacity that remains. *)
Definition overlappingDst : Array :=
  {| Timestamps := sliceAt 1 1 3; Values := sliceAt 20 2 2 |}.

(** A destination of its own with room for four elements, holding none. *)
Definition roomyDst : Array :=
  {| Timestamps := sliceAt 16 0 4; Values := sliceAt 20 0 4 |}.

(** A block encoder to run [Encode] with: it fails on columns of unequal
    length and otherwise appends one byte per timestamp. *)
Definition demoEncoder : BlockEncoder :=
  fun ts vs b =>
    if Nat.eqb (length ts) (length vs)
    then Ok (b ++ map (fun _ => Byte.x2a) ts)%list
    else Err (Errorf "unequal columns").

(** *** A client environment *)

(** A stand-in for [url.Parse]: the scheme is what stands before "://",
    which must be there; the rest is the host. *)
Definition demoParseURL (addr : string) : result URL :=
  if String.prefix "https://" addr then
    Ok {| Scheme := "https";
          Host := String.substring 8 (String.length addr - 8) addr;
          Path := ""; RawQuery := "" |}
  else if String.prefix "http://" addr then
    Ok {| Scheme := "http";
          Host := String.substring 7 (String.length addr - 7) addr;
          Path := ""; RawQuery := "" |}
  else Err (Errorf "missing protocol scheme").

(** A stand-in for [httpc.New]: the client is the list of its options. *)
#[local] Instance demoClientDeps : ClientDeps :=
  {| httpc_Client := list ClientOptFn;
     url_Parse := demoParseURL;
     httpc_New := fun opts => Ok opts |}.

(** *** Proof automation *)

(** Splits on every test and every answer a run depends on. *)
Ltac run_cases :=
  repeat (cbn;
          match goal with
          | |- context [match ?x with _ => _ end] => destruct x eqn:?
          end);
  cbn; try reflexivity.

(** Turns statements on address ranges into linear arithmetic. *)
Ltac ranges :=
  unfold allocatedArray, allocated, separate, apart, storage, extent in *;
  cbn [fst snd Timestamps Values] in *; lia.

(* ===================================================================== *)
(** * Part II. Properties                                                 *)
(* ===================================================================== *)

(** ** Precision *)

Section PrecisionFacts.
Context `{Platform}.

Lemma string_length_app (a b : string) :
  String.length (a ++ b) = String.length a + String.length b.
Proof. induction a as [|c a IH]; cbn; [reflexivity | now rewrite IH]. Qed.

Lemma last2_app (a t : string) :
  2 <= String.length t -> last2 (a ++ t) = last2 t.
Proof.
  intros Ht. induction a as [|c a IH]; [reflexivity|].
  change (String c a ++ t) with (String c (a ++ t)).
  assert (Hl : 2 <= String.length (a ++ t)).
  { rewrite string_length_app. lia. }
  cbn [last2]. rewrite IH.
  destruct (a ++ t) as [|x [|y r]]; cbn in Hl; try lia.
  reflexivity.
Qed.

Lemma errPrecision_distinct (p q : string) :
  errPrecisionV2 p <> errPrecisionV1 q.
Proof.
  unfold errPrecisionV2, errPrecisionV1, Errorf. intros E.
  injection E as E. apply (f_equal last2) in E.
  rewrite !last2_app in E by (rewrite ?string_length_app; cbn; lia).
  cbn in E. discriminate E.
Qed.

Lemma stage1_range (p q : string) :
  precisionStage1 p = Ok q ->
  q = "n" \/ q = "u" \/ q = "ms" \/ q = "s" \/ q = "".
Proof.
  unfold precisionStage1.
  destruct (String.eqb_spec p "ns"); [intros [= <-]; auto|].
  destruct (String.eqb_spec p "us"); [intros [= <-]; auto|].
  destruct (String.eqb_spec p "ms"); [intros [= <-]; auto|].
  destruct (String.eqb_spec p "s"); [intros [= <-]; auto 6|].
  destruct (String.eqb_spec p ""); [intros [= <-]; auto 6|].
  cbn. discriminate.
Qed.

Lemma stage1_reject (p : string) :
  p <> "" -> p <> "ns" -> p <> "us" -> p <> "ms" -> p <> "s" ->
  precisionStage1 p = Err (errPrecisionV2 p).
Proof.
  intros H0 H1 H2 H3 H4. unfold precisionStage1.
  rewrite (proj2 (String.eqb_neq _ _) H0), (proj2 (String.eqb_neq _ _) H1),
    (proj2 (String.eqb_neq _ _) H2), (proj2 (String.eqb_neq _ _) H3),
    (proj2 (String.eqb_neq _ _) H4).
  reflexivity.
Qed.

(** C1 (as amended).  The tokens "", "ns", "us", "ms" and "s" normalize to
    "", "n", "u", "ms" and "s"; every other token, "m" and "h" among them,
    is refused by the first switch with an InvalidPrecision error. *)
Theorem precision_tokens :
  normalizePrecision "" = Ok "" /\
  normalizePrecision "ns" = Ok "n" /\
  normalizePrecision "us" = Ok "u" /\
  normalizePrecision "ms" = Ok "ms" /\
  normalizePrecision "s" = Ok "s" /\
  forall p : string,
    p <> "" -> p <> "ns" -> p <> "us" -> p <> "ms" -> p <> "s" ->
    normalizePrecision p = Err (errPrecisionV2 p) /\
    InvalidPrecision (errPrecisionV2 p).
Proof.
  repeat (split; [reflexivity|]).
  intros p H0 H1 H2 H3 H4. unfold normalizePrecision.
  rewrite stage1_reject by assumption.
  split; [reflexivity|]. exists p. now left.
Qed.

(** C9.  Every token that leaves the first switch is accepted by the
    second one, and [handleWrite] never reports the second switch's
    error. *)
Theorem stage2_never_fails :
  (forall p q : string, precisionStage1 p = Ok q -> precisionStage2 q = Ok q) /\
  (forall p q : string, normalizePrecision p <> Err (errPrecisionV1 q)).
Proof.
  assert (S : forall p q, precisionStage1 p = Ok q -> precisionStage2 q = Ok q).
  { intros p q Hq.
    destruct (stage1_range p q Hq) as [-> | [-> | [-> | [-> | ->]]]];
      reflexivity. }
  split; [exact S|].
  intros p q. unfold normalizePrecision.
  destruct (precisionStage1 p) as [p'|e] eqn:E1.
  - rewrite (S p p' E1). discriminate.
  - unfold precisionStage1 in E1.
    repeat match type of E1 with
           | (if ?b then _ else _) = _ => destruct b; try discriminate E1
           end.
    injection E1 as <-. intros E.
    apply (errPrecision_distinct p q). congruence.
Qed.

End PrecisionFacts.

(** C1, as stated, fails: "m" does not pass through. *)
Lemma precision_m_refused :
  normalizePrecision "m" = Err (errPrecisionV2 "m") /\
  normalizePrecision "m" <> Ok "m" /\
  normalizePrecision "h" <> Ok "h".
Proof. repeat split; cbv; discriminate. Qed.

(** C1 at work: "m" and "h" are refused by the first switch. *)
Lemma precision_tokens_witness :
  (normalizePrecision "m" = Err (errPrecisionV2 "m") /\
   InvalidPrecision (errPrecisionV2 "m")) /\
  (normalizePrecision "h" = Err (errPrecisionV2 "h") /\
   InvalidPrecision (errPrecisionV2 "h")).
Proof.
  split.
  - apply (proj2 (proj2 (proj2 (proj2 (proj2 precision_tokens)))) "m");
      discriminate.
  - apply (proj2 (proj2 (proj2 (proj2 (proj2 precision_tokens)))) "h");
      discriminate.
Defined.

(** C9 at work: "ns" leaves the first switch as "n", which the second
    accepts. *)
Lemma stage2_never_fails_witness :
  precisionStage1 "ns" = Ok "n" /\ precisionStage2 "n" = Ok "n".
Proof.
  split; [reflexivity|].
  apply (proj1 stage2_never_fails "ns" "n"). reflexivity.
Defined.

(** ** Running handler methods *)

Section HandlerFacts.
Context `{Platform} {W : Type} (s : System W).

Lemma run_bind {A B : Type} (p : Prog A) (f : A -> Prog B) (w : W) :
  run s (bind p f) w =
  let o := run s p w in
  let o' := run s (f (value o)) (final o) in
  {| value := value o'; final := final o'; calls := calls o ++ calls o' |}.
Proof.
  revert w. induction p as [a|c k IH]; intros w; cbn.
  - now destruct (run s (f a) w).
  - now rewrite IH.
Qed.

Lemma run_call (c : Call) (w : W) :
  run s (call c) w =
  {| value := fst (perform s c w); final := snd (perform s c w); calls := [c] |}.
Proof. reflexivity. Qed.

Lemma noLegacy_app (cs1 cs2 : list Call) :
  noLegacy (cs1 ++ cs2) = noLegacy cs1 && noLegacy cs2.
Proof. apply forallb_app. Qed.

End HandlerFacts.

Section Resolution.
Context `{Platform} {W : Type} (s : System W).

Lemma findOrganization_noLegacy (r : Request) (w : W) :
  noLegacy (calls (run s (findOrganization r) w)) = true.
Proof. unfold findOrganization. run_cases. Qed.

Lemma findBucket_noLegacy (r : Request) (orgID : ID) (w : W) :
  noLegacy (calls (run s (findBucket r orgID) w)) = true.
Proof. unfold findBucket. run_cases. Qed.

Lemma findTenantV2_noLegacy (r : Request) (w : W) :
  noLegacy (calls (run s (findTenantV2 r) w)) = true.
Proof.
  unfold findTenantV2. rewrite run_bind. cbn zeta. cbn [calls].
  rewrite noLegacy_app, findOrganization_noLegacy.
  destruct (value (run s (findOrganization r) w)) as [org|e]; [|reflexivity].
  rewrite run_bind. cbn zeta. cbn [calls].
  rewrite noLegacy_app, findBucket_noLegacy.
  now destruct (value (run s (findBucket r (org_ID org)) _)).
Qed.

Lemma parsePoints_noLegacy (r : Request) (precision : string) (w : W) :
  noLegacy (calls (run s (parsePoints r precision) w)) = true.
Proof. unfold parsePoints, readAndParse. run_cases. Qed.

Lemma parseAndWrite_noLegacy (r : Request) (precision : string)
  (org : Organization) (bucket : Bucket) (w : W) :
  noLegacy (calls (run s (parseAndWrite r precision org bucket) w)) = true.
Proof.
  unfold parseAndWrite. rewrite run_bind. cbn zeta. cbn [calls].
  rewrite noLegacy_app, parsePoints_noLegacy.
  run_cases.
Qed.

End Resolution.

(** ** Tenant resolution *)

Section TenantFacts.
Context `{Platform} {W : Type} (s : System W).

(** C4.  When the bucket parameter is a well-formed ID, the first call is
    the lookup by that ID within the organization; a NotFound answer is
    followed by the lookup by name within the same organization, whose
    answer is returned; any other error is returned at once, with no second
    call. *)
Theorem findBucket_id_then_name (w : W) (r : Request) (orgID id : ID) :
  IDFromString (Get (Query r) "bucket") = Ok id ->
  let byID := {| bf_OrganizationID := Some orgID; bf_ID := Some id;
                 bf_Name := None |} in
  let byName := {| bf_OrganizationID := Some orgID; bf_ID := None;
                   bf_Name := Some (Get (Query r) "bucket") |} in
  let first := FindBucket (bucketSvc (handler s)) byID w in
  let o := run s (findBucket r orgID) w in
  hd_error (calls o) = Some (call_FindBucket byID) /\
  (forall b, fst first = Ok b ->
     value o = Ok b /\ calls o = [call_FindBucket byID] /\
     final o = snd first) /\
  (forall e, fst first = Err e -> ErrorCode e = ENotFound ->
     calls o = [call_FindBucket byID; call_FindBucket byName] /\
     (value o, final o) = FindBucket (bucketSvc (handler s)) byName (snd first)) /\
  (forall e, fst first = Err e -> ErrorCode e <> ENotFound ->
     value o = Err e /\ calls o = [call_FindBucket byID] /\
     final o = snd first).
Proof.
  intros Hid. cbv zeta. unfold findBucket. rewrite Hid. cbn.
  destruct (FindBucket (bucketSvc (handler s)) _ w) as [[b|e] w1] eqn:E; cbn.
  - split; [reflexivity|].
    split; [intros b' [= <-]; auto|].
    split; intros e' [=].
  - destruct (String.eqb_spec (ErrorCode e) ENotFound) as [Hc|Hc]; cbn.
    + split; [reflexivity|].
      split; [intros b' [=]|].
      split.
      * intros e' _ _. split; [reflexivity|].
        now destruct (FindBucket (bucketSvc (handler s)) _ w1).
      * intros e' [= <-] Hn. now elim Hn.
    + split; [reflexivity|].
      split; [intros b' [=]|].
      split.
      * intros e' [= <-] Hn. now elim Hc.
      * intros e' [= <-] _. auto.
Qed.

(** C5 (as amended).  With a non-empty [org_id]: when it is a well-formed
    ID, the directory is asked once, with that ID as the filter's ID
    whatever the [org] parameter is, and with the name taken from [org]
    (if [org] is non-empty and not an ID) still in the filter; when it is
    malformed, the ID-format error is returned and no call is made. *)
Theorem org_id_sets_filter_ID (w : W) (r : Request) :
  let organization := Get (Query r) "org" in
  let reqID := Get (Query r) "org_id" in
  let o := run s (findOrganization r) w in
  reqID <> "" ->
  (forall id, IDFromString reqID = Ok id ->
     let name := if String.eqb organization "" then None
                 else match IDFromString organization with
                      | Ok _ => None
                      | Err _ => Some organization
                      end in
     let filter := {| of_ID := Some id; of_Name := name |} in
     calls o = [call_FindOrganization filter] /\
     (value o, final o) = FindOrganization (orgSvc (handler s)) filter w) /\
  (forall err, IDFromString reqID = Err err ->
     value o = Err err /\ calls o = [] /\ final o = w).
Proof.
  cbv zeta. intros Hne. apply String.eqb_neq in Hne.
  unfold findOrganization. rewrite Hne. cbn [negb].
  split.
  - intros id Hid. rewrite Hid. cbn.
    destruct (String.eqb (Get (Query r) "org") ""); cbn.
    + now destruct (FindOrganization _ _ w).
    + destruct (IDFromString (Get (Query r) "org")); cbn;
        now destruct (FindOrganization _ _ w).
  - intros err Herr. rewrite Herr. cbn. auto.
Qed.

(** C10.  A non-empty [org] that is not a well-formed ID is not an error:
    whenever [org_id] does not stop the resolution, the directory is asked
    with [org] as the filter's name.  A resolution that ends without any
    call to the directory is always the malformed-[org_id] case. *)
Theorem malformed_org_is_a_name (w : W) (r : Request) :
  let organization := Get (Query r) "org" in
  let reqID := Get (Query r) "org_id" in
  let o := run s (findOrganization r) w in
  (forall e, organization <> "" -> IDFromString organization = Err e ->
     (reqID = "" \/ exists id, IDFromString reqID = Ok id) ->
     exists fid,
       let filter := {| of_ID := fid; of_Name := Some organization |} in
       calls o = [call_FindOrganization filter] /\
       (value o, final o) = FindOrganization (orgSvc (handler s)) filter w) /\
  (calls o = [] ->
     reqID <> "" /\ exists e, IDFromString reqID = Err e /\ value o = Err e).
Proof.
  cbv zeta. split.
  - intros e Hne He Hreq. apply String.eqb_neq in Hne.
    unfold findOrganization. rewrite Hne, He. cbn [negb of_Name].
    destruct (String.eqb_spec (Get (Query r) "org_id") "") as [E|E]; cbn.
    + exists None. now destruct (FindOrganization _ _ w).
    + destruct Hreq as [Hreq | [id Hid]]; [contradiction|].
      rewrite Hid. cbn. exists (Some id). now destruct (FindOrganization _ _ w).
  - unfold findOrganization.
    destruct (String.eqb_spec (Get (Query r) "org_id") "") as [E|E]; cbn.
    + discriminate.
    + destruct (IDFromString (Get (Query r) "org_id")) as [id|e]; cbn.
      * discriminate.
      * intros _. split; [assumption|]. now exists e.
Qed.

(** C3 (as amended).  The legacy scheme starts with the mapping lookup for
    the pair (db, rp).  It succeeds exactly when that lookup returns one
    mapping and the organization and the bucket are both found by the IDs
    stored in it, and then returns those two; with no mapping or several,
    it fails at once with the mapping error. *)
Theorem legacy_resolution (w : W) (r : Request) :
  let db := Get (Query r) "db" in
  let rp := Get (Query r) "rp" in
  let filter := {| ff_Database := Some db; ff_RetentionPolicy := Some rp |} in
  let found := FindMany (dbrpSvc (handler s)) filter w in
  let o := run s (findTenantV1 r) w in
  hd_error (calls o) = Some (call_FindMany filter) /\
  (forall org bucket,
     value o = Ok (org, bucket) <->
     exists m,
       fst found = Ok [m] /\
       let byOrg := FindOrganizationByID (orgSvc (handler s))
                      (OrganizationID m) (snd found) in
       fst byOrg = Ok org /\
       fst (FindBucketByID (bucketSvc (handler s)) (BucketID m) (snd byOrg))
       = Ok bucket) /\
  (forall ms, fst found = Ok ms -> length ms <> 1 ->
     value o = Err (errDBRP db rp) /\ calls o = [call_FindMany filter]).
Proof.
  cbv zeta. unfold findTenantV1. cbn.
  destruct (FindMany (dbrpSvc (handler s)) _ w) as [[ms|e] w1] eqn:E; cbn.
  2:{ repeat split; try discriminate.
      intros (m & [=] & _). }
  destruct ms as [|m [|m' ms]]; cbn.
  - repeat split; try discriminate.
    intros (m & [=] & _).
  - split; [reflexivity|]. split.
    + intros org bucket.
      destruct (FindOrganizationByID (orgSvc (handler s)) _ w1)
        as [[org'|e] w2] eqn:E2; cbn.
      * destruct (FindBucketByID (bucketSvc (handler s)) _ w2)
          as [[bucket'|e] w3] eqn:E3; cbn.
        -- split.
           ++ intros [= <- <-]. exists m. rewrite E2. cbn. rewrite E3. auto.
           ++ intros (m0 & [= <-] & H1). rewrite E2 in H1. cbn in H1.
              rewrite E3 in H1. cbn in H1. destruct H1 as [[= <-] [= <-]].
              reflexivity.
        -- split; [discriminate|].
           intros (m0 & [= <-] & H1). rewrite E2 in H1. cbn in H1.
           rewrite E3 in H1. cbn in H1. destruct H1 as [_ [=]].
      * split; [discriminate|].
        intros (m0 & [= <-] & H1). rewrite E2 in H1. cbn in H1.
        destruct H1 as [[=] _].
    + intros ms' [= <-] Hl. now elim Hl.
  - repeat split; try discriminate.
    intros (m0 & [=] & _).
Qed.

End TenantFacts.

(** ** The write handler *)

Section WriteFacts.
Context `{Platform} {W : Type} (s : System W).
#[local] Open Scope list_scope.

Lemma findTenant_run (w : W) (r : Request) :
  let o2 := run s (findTenantV2 r) w in
  let o1 := run s (findTenantV1 r) (final o2) in
  run s (findTenant r) w =
  match value o2 with
  | Ok t => {| value := Ok t; final := final o2; calls := calls o2 |}
  | Err e =>
      {| value := match value o1 with Ok t => Ok t | Err _ => Err e end;
         final := final o1;
         calls := calls o2 ++ calls o1 |}
  end.
Proof.
  cbv zeta. unfold findTenant. rewrite run_bind. cbv zeta.
  destruct (value (run s (findTenantV2 r) w)) as [t|e];
    cbn [run value final calls].
  - now rewrite app_nil_r.
  - rewrite run_bind. cbv zeta.
    destruct (value (run s (findTenantV1 r) (final (run s (findTenantV2 r) w))));
      cbn [run value final calls]; now rewrite app_nil_r.
Qed.

Lemma handleWrite_run (w : W) (r : Request) (precision : string) :
  normalizePrecision (Get (Query r) "precision") = Ok precision ->
  let ot := run s (findTenant r) w in
  run s (handleWrite r) w =
  match value ot with
  | Err e => {| value := apiErr e; final := final ot; calls := calls ot |}
  | Ok (org, bucket) =>
      let o := run s (parseAndWrite r precision org bucket) (final ot) in
      {| value := value o; final := final o; calls := calls ot ++ calls o |}
  end.
Proof.
  intros Hp. cbv zeta. unfold handleWrite. rewrite Hp, run_bind. cbv zeta.
  destruct (value (run s (findTenant r) w)) as [[org bucket]|e];
    cbn [run value final calls].
  - reflexivity.
  - now rewrite app_nil_r.
Qed.

(** A refused precision ends the request before any call is made. *)
Lemma handleWrite_refused_precision (w : W) (r : Request) (e : error) :
  normalizePrecision (Get (Query r) "precision") = Err e ->
  run s (handleWrite r) w = {| value := apiErr e; final := w; calls := [] |}.
Proof. intros Hp. unfold handleWrite. now rewrite Hp. Qed.

(** C2.  When the current scheme resolves the tenant, the request is
    served without a single call of the legacy scheme.  When it fails, the
    legacy scheme runs next, and if that fails too the handler answers with
    the current scheme's error. *)
Theorem current_scheme_first (w : W) (r : Request) (precision : string) :
  normalizePrecision (Get (Query r) "precision") = Ok precision ->
  let o2 := run s (findTenantV2 r) w in
  let o1 := run s (findTenantV1 r) (final o2) in
  let ot := run s (findTenant r) w in
  let o := run s (handleWrite r) w in
  (forall t, value o2 = Ok t ->
     value ot = Ok t /\ calls ot = calls o2 /\ final ot = final o2 /\
     noLegacy (calls o) = true) /\
  (forall e, value o2 = Err e ->
     calls ot = calls o2 ++ calls o1 /\ final ot = final o1 /\
     (forall t, value o1 = Ok t -> value ot = Ok t) /\
     (forall e1, value o1 = Err e1 ->
        value ot = Err e /\ value o = apiErr e /\
        calls o = calls o2 ++ calls o1 /\ final o = final o1)).
Proof.
  intros Hp. cbv zeta.
  rewrite (handleWrite_run w r precision Hp). cbv zeta.
  rewrite findTenant_run. cbv zeta. split.
  - intros [org bucket] Ht. rewrite Ht. cbn.
    repeat split.
    rewrite noLegacy_app, findTenantV2_noLegacy, parseAndWrite_noLegacy.
    reflexivity.
  - intros e He. rewrite He. cbn.
    split; [reflexivity|]. split; [reflexivity|]. split.
    + intros t Ht. now rewrite Ht.
    + intros e1 He1. rewrite He1. cbn. auto.
Qed.

(** C6.  Once the precision is accepted and the tenant resolved: a parse
    that ends with the error "EOF" and no point is answered with status
    200 and nothing is written; any other parse error, and "EOF" with at
    least one point, is answered with that error; a parse without error
    followed by a successful write is answered with status 204, which is a
    different answer. *)
Theorem empty_body_outcome (w : W) (r : Request) (precision : string)
  (org : Organization) (bucket : Bucket) :
  normalizePrecision (Get (Query r) "precision") = Ok precision ->
  let ot := run s (findTenant r) w in
  value ot = Ok (org, bucket) ->
  let op := run s (parsePoints r precision) (final ot) in
  let points := fst (value op) in
  let o := run s (handleWrite r) w in
  (forall e, snd (value op) = Some e ->
     Error e = "EOF" -> points = [] ->
     value o = WriteHeader StatusOK /\
     calls o = calls ot ++ calls op /\ final o = final op) /\
  (forall e, snd (value op) = Some e ->
     Error e <> "EOF" \/ points <> [] ->
     value o = apiErr e /\
     calls o = calls ot ++ calls op /\ final o = final op) /\
  (snd (value op) = None ->
     let ow := WritePoints (writeSvc (handler s)) (org_ID org)
                 (bucket_ID bucket) points (final op) in
     value o <> WriteHeader StatusOK /\
     (fst ow = None -> value o = WriteHeader StatusNoContent)) /\
  WriteHeader StatusOK <> WriteHeader StatusNoContent.
Proof.
  intros Hp. cbv zeta. intros Ht.
  rewrite (handleWrite_run w r precision Hp). cbv zeta. rewrite Ht.
  unfold parseAndWrite. rewrite run_bind. cbv zeta. cbn [value final calls].
  set (op := run s (parsePoints r precision) (final (run s (findTenant r) w))).
  split; [|split; [|split]].
  - intros e He Heof Hpts. rewrite He, Heof, Hpts. cbn.
    now rewrite app_nil_r.
  - intros e He Hor. rewrite He.
    destruct (String.eqb_spec (Error e) "EOF") as [E|E]; cbn.
    + destruct Hor as [Hor|Hor]; [contradiction|].
      destruct (fst (value op)); [contradiction|]. cbn.
      now rewrite app_nil_r.
    + now rewrite app_nil_r.
  - intros He. rewrite He. cbn.
    destruct (WritePoints (writeSvc (handler s)) _ _ _ (final op))
      as [[e|] w'] eqn:E; cbn.
    + split; [discriminate|]. discriminate.
    + split; [discriminate|]. reflexivity.
  - discriminate.
Qed.

End WriteFacts.

(** ** Slices over the store *)

Section SliceFacts.
Context `{Variant} `{GoRuntime}.
#[local] Open Scope nat_scope.
#[local] Open Scope list_scope.

Lemma store_inside (m : nat -> cell) (p : nat) (xs : list cell) (a : nat) :
  p <= a < p + length xs -> store m p xs a = nth (a - p) xs (m a).
Proof.
  intros Ha. unfold store.
  destruct (Nat.leb_spec p a); [|lia].
  destruct (Nat.ltb_spec a (p + length xs)); [reflexivity|lia].
Qed.

Lemma store_outside (m : nat -> cell) (p : nat) (xs : list cell) (a : nat) :
  a < p \/ p + length xs <= a -> store m p xs a = m a.
Proof.
  intros Ha. unfold store.
  destruct (Nat.leb_spec p a); [|reflexivity].
  destruct (Nat.ltb_spec a (p + length xs)); [lia|reflexivity].
Qed.

(** Reading back what was just stored. *)
Lemma read_store_same (m : nat -> cell) (p : nat) (xs : list cell) :
  map (store m p xs) (seq p (length xs)) = xs.
Proof.
  apply (nth_ext _ _ (store m p xs 0) (store m p xs 0)).
  - now rewrite length_map, length_seq.
  - intros n Hn. rewrite length_map, length_seq in Hn.
    rewrite map_nth, seq_nth by assumption.
    rewrite store_inside by lia.
    replace (p + n - p) with n by lia.
    now apply nth_indep.
Qed.

(** Storing elsewhere does not change what is read. *)
Lemma read_store_apart (m : nat -> cell) (p : nat) (xs : list cell) (q n : nat) :
  q + n <= p \/ p + length xs <= q \/ n = 0 \/ length xs = 0 ->
  map (store m p xs) (seq q n) = map m (seq q n).
Proof.
  intros Hd. apply map_ext_in. intros a Ha. apply in_seq in Ha.
  apply store_outside. lia.
Qed.

Lemma length_elems (h : Heap) (s : slice) : length (elems h s) = len s.
Proof. unfold elems. now rewrite length_map, length_seq. Qed.

(** [append(d[:0], xs...)]: the slice returned holds [xs]; it sits on the
    storage of [d] when [xs] fits, on fresh cells otherwise; the cells
    outside the storage of [d] that were handed out keep their content. *)
Lemma append_reslice0 (zero : cell) (d : slice) (xs : list cell) (h : Heap) :
  let r := append zero (reslice0 d) xs h in
  len (fst r) = length xs /\
  elems (snd r) (fst r) = xs /\
  (ptr (fst r) = ptr d /\ cap (fst r) = cap d /\ brk (snd r) = brk h /\
   length xs <= cap d
   \/
   ptr (fst r) = brk h /\ brk (snd r) = brk h + cap (fst r) /\
   length xs <= cap (fst r)) /\
  (forall t : slice,
     apart (storage d) (extent t) -> ptr t + len t <= brk h ->
     elems (snd r) t = elems h t).
Proof.
  cbv zeta. unfold append, reslice0. cbn [len ptr cap].
  rewrite Nat.add_0_l, Nat.add_0_r.
  destruct (Nat.leb_spec (length xs) (cap d)) as [Hfit|Hgrow]; cbn [fst snd].
  - split; [reflexivity|]. split.
    { unfold elems. cbn [mem ptr len]. apply read_store_same. }
    split; [left; auto|].
    intros t Ht Hb. unfold elems. cbn [mem].
    apply read_store_apart.
    unfold apart, storage, extent in Ht. cbn [fst snd] in Ht. lia.
  - pose proof (growcap_ge (cap d) (length xs)) as Hc.
    split; [reflexivity|]. split.
    { unfold elems. cbn [mem ptr len elems seq map app].
      apply read_store_same. }
    split; [right; cbn [ptr cap brk]; auto|].
    intros t Ht Hb. unfold elems at 1. cbn [mem].
    cbn [len seq map app].
    rewrite read_store_apart by lia.
    rewrite read_store_apart by (rewrite repeat_length; lia).
    reflexivity.
Qed.

End SliceFacts.

(** ** Typed arrays *)

Section ArrayFacts.
Context `{Variant} `{GoRuntime}.
#[local] Open Scope nat_scope.
#[local] Open Scope list_scope.

(** What one [Copy] does, for a destination whose storage is apart from
    the source: the destination holds the source's elements, it is again
    made of handed-out cells with its two fields apart, and every slice
    that was apart from the destination keeps its elements and stays apart
    from it. *)
Lemma Copy_post (h : Heap) (a dst : Array) :
  allocatedArray h a -> allocatedArray h dst -> separate a dst ->
  let r := Copy a dst h in
  elems (snd r) (Timestamps (fst r)) = elems h (Timestamps a) /\
  elems (snd r) (Values (fst r)) = elems h (Values a) /\
  len (Timestamps (fst r)) = len (Timestamps a) /\
  len (Values (fst r)) = len (Values a) /\
  allocatedArray (snd r) (fst r) /\
  apart (storage (Timestamps (fst r))) (storage (Values (fst r))) /\
  (forall t : slice,
     allocated h t ->
     apart (storage (Timestamps dst)) (extent t) ->
     apart (storage (Values dst)) (extent t) ->
     elems (snd r) t = elems h t /\ allocated (snd r) t /\
     apart (storage (Timestamps (fst r))) (extent t) /\
     apart (storage (Values (fst r))) (extent t)).
Proof.
  intros (HaT & HaV) (HdT & HdV) (S1 & S2 & S3 & S4 & S5).
  cbv zeta. unfold Copy. cbn [fst snd Timestamps Values].
  pose proof (append_reslice0 (I64 0) (Timestamps dst)
                (elems h (Timestamps a)) h) as A1.
  cbv zeta in A1.
  set (th := append (I64 0) (reslice0 (Timestamps dst))
               (elems h (Timestamps a)) h) in *.
  destruct A1 as (L1 & E1 & P1 & F1).
  assert (EV : elems (snd th) (Values a) = elems h (Values a)).
  { apply F1; [exact S2 | clear - HaV; ranges]. }
  rewrite EV.
  pose proof (append_reslice0 (Val zeroT) (Values dst)
                (elems h (Values a)) (snd th)) as A2.
  cbv zeta in A2.
  set (vh := append (Val zeroT) (reslice0 (Values dst))
               (elems h (Values a)) (snd th)) in *.
  destruct A2 as (L2 & E2 & P2 & F2).
  rewrite length_elems in L1, L2, P1, P2.
  assert (ET : elems (snd vh) (fst th) = elems (snd th) (fst th)).
  { apply F2; clear - P1 L1 S5 HdT HdV; destruct P1 as [P1|P1]; ranges. }
  split; [now rewrite ET|].
  split; [assumption|].
  split; [assumption|].
  split; [assumption|].
  split.
  { clear - P1 P2 L1 L2 HdT HdV.
    destruct P1 as [P1|P1], P2 as [P2|P2]; ranges. }
  split.
  { clear - P1 P2 S5 HdT HdV.
    destruct P1 as [P1|P1], P2 as [P2|P2]; ranges. }
  intros t Ht T1 T2.
  split.
  { rewrite F2, F1; trivial; clear - Ht P1; destruct P1 as [P1|P1]; ranges. }
  split.
  { clear - Ht P1 P2. destruct P1 as [P1|P1], P2 as [P2|P2]; ranges. }
  split.
  { clear - Ht P1 T1. destruct P1 as [P1|P1]; ranges. }
  clear - Ht P1 P2 T2. destruct P1 as [P1|P1], P2 as [P2|P2]; ranges.
Qed.

End ArrayFacts.

Section CopyFacts.
Context `{Variant} `{GoRuntime}.
#[local] Open Scope nat_scope.
#[local] Open Scope list_scope.

(** An array apart from the destination is untouched by a [Copy] into it,
    and stays apart from the destination. *)
Lemma Copy_keeps (h : Heap) (a dst b : Array) :
  allocatedArray h a -> allocatedArray h dst -> separate a dst ->
  allocatedArray h b -> separate b dst ->
  let r := Copy a dst h in
  allocatedArray (snd r) b /\ separate b (fst r) /\
  elems (snd r) (Timestamps b) = elems h (Timestamps b) /\
  elems (snd r) (Values b) = elems h (Values b).
Proof.
  intros Ha Hd Hs Hb Hbs. cbv zeta.
  destruct (Copy_post h a dst Ha Hd Hs) as (_ & _ & _ & _ & _ & Hself & F).
  destruct Hb as (HbT & HbV).
  destruct Hbs as (B1 & B2 & B3 & B4 & _).
  destruct (F (Timestamps b) HbT B1 B3) as (ET & AT & T1 & T2).
  destruct (F (Values b) HbV B2 B4) as (EV & AV & V1 & V2).
  unfold allocatedArray, separate. auto 10.
Qed.

(** C7 (as amended).  For a destination made of handed-out cells whose
    storage shares no cell with the sources, and of any prior length and
    content: after [Copy] the destination's Timestamps and Values are the
    source's and the source reads as before; after three copies in a row
    into the same destination, from sources of any lengths, the destination
    holds exactly the elements of the third source. *)
Theorem Copy_correct (h : Heap) (a1 a2 a3 dst : Array) :
  allocatedArray h dst ->
  allocatedArray h a1 -> allocatedArray h a2 -> allocatedArray h a3 ->
  separate a1 dst -> separate a2 dst -> separate a3 dst ->
  let r1 := Copy a1 dst h in
  let r2 := Copy a2 (fst r1) (snd r1) in
  let r3 := Copy a3 (fst r2) (snd r2) in
  (elems (snd r1) (Timestamps (fst r1)) = elems h (Timestamps a1) /\
   elems (snd r1) (Values (fst r1)) = elems h (Values a1) /\
   elems (snd r1) (Timestamps a1) = elems h (Timestamps a1) /\
   elems (snd r1) (Values a1) = elems h (Values a1)) /\
  (len (Timestamps (fst r3)) = len (Timestamps a3) /\
   len (Values (fst r3)) = len (Values a3) /\
   elems (snd r3) (Timestamps (fst r3)) = elems h (Timestamps a3) /\
   elems (snd r3) (Values (fst r3)) = elems h (Values a3)).
Proof.
  intros Hd H1 H2 H3 S1 S2 S3. cbv zeta.
  destruct (Copy_post h a1 dst H1 Hd S1) as (T1 & V1 & _ & _ & D1 & _ & F1).
  destruct (Copy_keeps h a1 dst a2 H1 Hd S1 H2 S2) as (A12 & S12 & ET2 & EV2).
  destruct (Copy_keeps h a1 dst a3 H1 Hd S1 H3 S3) as (A13 & S13 & ET3 & EV3).
  set (r1 := Copy a1 dst h) in *.
  split.
  { split; [assumption|]. split; [assumption|].
    destruct H1 as (H1T & H1V). destruct S1 as (B1 & B2 & B3 & B4 & _).
    split; [apply (F1 _ H1T B1 B3) | apply (F1 _ H1V B2 B4)]. }
  destruct (Copy_post (snd r1) a2 (fst r1) A12 D1 S12)
    as (_ & _ & _ & _ & D2 & _ & _).
  destruct (Copy_keeps (snd r1) a2 (fst r1) a3 A12 D1 S12 A13 S13)
    as (A23 & S23 & ET3' & EV3').
  set (r2 := Copy a2 (fst r1) (snd r1)) in *.
  destruct (Copy_post (snd r2) a3 (fst r2) A23 D2 S23)
    as (T3 & V3 & LT & LV & _).
  split; [assumption|]. split; [assumption|].
  split; congruence.
Qed.

(** C8.  [new<T>ArrayLen(sz)] returns an array exactly when [sz] is not
    negative, and both fields then have length [sz]; [Encode] leaves the
    array and the store as they are; after [Copy] each field of the
    destination has the length of the same field of the source, so that a
    source with fields of equal length gives a destination with fields of
    equal length. *)
Theorem lengths_stay_parallel :
  (forall (sz : Z) (h : Heap),
     match newArrayLen sz h with
     | Some (a, h') =>
         (0 <= sz)%Z /\
         Z.of_nat (len (Timestamps a)) = sz /\
         Z.of_nat (len (Values a)) = sz /\
         Z.of_nat (length (elems h' (Timestamps a))) = sz /\
         Z.of_nat (length (elems h' (Values a))) = sz /\
         parallel a
     | None => (sz < 0)%Z
     end) /\
  (forall (enc : BlockEncoder) (a : Array) (b : bytes) (h : Heap),
     snd (Encode enc a b h) = (a, h) /\
     (parallel a -> parallel (fst (snd (Encode enc a b h))))) /\
  (forall (a dst : Array) (h : Heap),
     len (Timestamps (fst (Copy a dst h))) = len (Timestamps a) /\
     len (Values (fst (Copy a dst h))) = len (Values a) /\
     (parallel a -> parallel (fst (Copy a dst h)))).
Proof.
  split; [|split].
  - intros sz h. unfold newArrayLen.
    destruct (Z.ltb_spec sz 0) as [Hneg|Hpos]; [assumption|].
    rewrite !length_elems. unfold parallel. cbn. lia.
  - intros enc a b h. split; [reflexivity|]. intros Hp. exact Hp.
  - intros a dst h.
    pose proof (append_reslice0 (I64 0) (Timestamps dst)
                  (elems h (Timestamps a)) h) as (L1 & _).
    pose proof (append_reslice0 (Val zeroT) (Values dst)
                  (elems (snd (append (I64 0) (reslice0 (Timestamps dst))
                                      (elems h (Timestamps a)) h)) (Values a))
                  (snd (append (I64 0) (reslice0 (Timestamps dst))
                               (elems h (Timestamps a)) h))) as (L2 & _).
    rewrite length_elems in L1, L2.
    unfold Copy, parallel. cbn [fst snd Timestamps Values].
    split; [assumption|]. split; [assumption|]. congruence.
Qed.

End CopyFacts.

(* ===================================================================== *)
(** * Part III. The properties at work on the in-memory system            *)
(* ===================================================================== *)

(** C2 at work: "dup/autogen" is mapped twice and no current-scheme
    parameter is given; both schemes fail and the answer carries the
    current scheme's error, not the mapping error.  With [org] and
    [bucket] given, the run makes no legacy call. *)
Lemma current_scheme_first_witness :
  value (run demoSystem
           (handleWrite (request [("db", "dup"); ("rp", "autogen")] 0))
           demoDir)
  = apiErr (errNotFound "bucket") /\
  noLegacy (calls (run demoSystem
                     (handleWrite (request [("org", "myorg");
                                            ("bucket", "mybucket");
                                            ("db", "mydb");
                                            ("rp", "autogen")] 1))
                     demoDir))
  = true.
Proof.
  split.
  - pose proof (current_scheme_first demoSystem demoDir
                  (request [("db", "dup"); ("rp", "autogen")] 0) ""
                  eq_refl) as [_ F].
    cbv zeta in F.
    destruct (F (errNotFound "bucket") eq_refl) as (_ & _ & _ & G).
    exact (proj1 (proj2 (G (errDBRP "dup" "autogen") eq_refl))).
  - pose proof (current_scheme_first demoSystem demoDir
                  (request [("org", "myorg"); ("bucket", "mybucket");
                            ("db", "mydb"); ("rp", "autogen")] 1) ""
                  eq_refl) as [F _].
    cbv zeta in F.
    exact (proj2 (proj2 (proj2
             (F ({| org_ID := 1%N; org_Name := "myorg" |},
                 {| bucket_ID := 2%N; bucket_Name := "mybucket";
                    bucket_OrganizationID := 1%N |}) eq_refl)))).
Defined.

(** C3, as stated, fails: "old/autogen" has exactly one mapping, and the
    legacy scheme fails all the same, the mapped organization being
    gone. *)
Lemma legacy_single_match_fails :
  let r := request [("db", "old"); ("rp", "autogen")] 0 in
  fst (FindMany (dbrpSvc (handler demoSystem))
         {| ff_Database := Some "old"; ff_RetentionPolicy := Some "autogen" |}
         demoDir)
  = Ok [ {| Database := "old"; RetentionPolicy := "autogen";
            OrganizationID := 9%N; BucketID := 2%N |} ] /\
  value (run demoSystem (findTenantV1 r) demoDir)
  = Err (errNotFound "organization").
Proof. split; reflexivity. Qed.

(** C3 at work: "mydb/autogen" resolves to the mapped pair; "dup/autogen",
    mapped twice, fails with the mapping error after the one lookup. *)
Lemma legacy_resolution_witness :
  value (run demoSystem
           (findTenantV1 (request [("db", "mydb"); ("rp", "autogen")] 0))
           demoDir)
  = Ok ({| org_ID := 1%N; org_Name := "myorg" |},
        {| bucket_ID := 2%N; bucket_Name := "mybucket";
           bucket_OrganizationID := 1%N |}) /\
  (let o := run demoSystem
              (findTenantV1 (request [("db", "dup"); ("rp", "autogen")] 0))
              demoDir in
   value o = Err (errDBRP "dup" "autogen") /\
   calls o = [ call_FindMany {| ff_Database := Some "dup";
                                ff_RetentionPolicy := Some "autogen" |} ]).
Proof.
  split.
  - pose proof (legacy_resolution demoSystem demoDir
                  (request [("db", "mydb"); ("rp", "autogen")] 0)) as L.
    cbv zeta in L. destruct L as (_ & L & _).
    apply L.
    exists {| Database := "mydb"; RetentionPolicy := "autogen";
              OrganizationID := 1%N; BucketID := 2%N |}.
    repeat split; reflexivity.
  - pose proof (legacy_resolution demoSystem demoDir
                  (request [("db", "dup"); ("rp", "autogen")] 0)) as L.
    cbv zeta in L. destruct L as (_ & _ & L).
    apply (L _ eq_refl). discriminate.
Defined.

(** C4 at work: bucket 3 does not exist, so the lookup by ID is followed by
    the lookup by name; with the directory unreachable the first error is
    returned and nothing else is tried. *)
Lemma findBucket_id_then_name_witness :
  let r := request [("bucket", "0000000000000003")] 0 in
  calls (run demoSystem (findBucket r 1%N) demoDir)
  = [ call_FindBucket {| bf_OrganizationID := Some 1%N; bf_ID := Some 3%N;
                         bf_Name := None |};
      call_FindBucket {| bf_OrganizationID := Some 1%N; bf_ID := None;
                         bf_Name := Some "0000000000000003" |} ] /\
  value (run demoSystem (findBucket r 1%N) demoDirDown) = Err errUnavailable /\
  calls (run demoSystem (findBucket r 1%N) demoDirDown)
  = [ call_FindBucket {| bf_OrganizationID := Some 1%N; bf_ID := Some 3%N;
                         bf_Name := None |} ].
Proof.
  cbv zeta.
  pose proof (findBucket_id_then_name demoSystem demoDir
                (request [("bucket", "0000000000000003")] 0) 1%N 3%N
                eq_refl) as A.
  pose proof (findBucket_id_then_name demoSystem demoDirDown
                (request [("bucket", "0000000000000003")] 0) 1%N 3%N
                eq_refl) as B.
  cbv zeta in A, B.
  destruct A as (_ & _ & A & _). destruct B as (_ & _ & _ & B).
  split.
  - exact (proj1 (A (errNotFound "bucket") eq_refl eq_refl)).
  - assert (Hc : ErrorCode errUnavailable <> ENotFound) by discriminate.
    destruct (B errUnavailable eq_refl Hc) as (B1 & B2 & _).
    split; assumption.
Defined.

(** C5, as stated, fails: with [org=myorg] and a well-formed [org_id], the
    name taken from [org] is not overridden; it reaches the directory in
    the same filter as the ID.  On a directory that matches on every field
    of the filter, [org_id=1] alone finds the organization and
    [org=other&org_id=1] does not. *)
Lemma org_name_not_overridden :
  calls (run demoSystem
           (findOrganization
              (request [("org", "myorg"); ("org_id", "0000000000000001")] 0))
           demoDir)
  = [ call_FindOrganization {| of_ID := Some 1%N; of_Name := Some "myorg" |} ] /\
  calls (run demoSystem
           (findOrganization (request [("org_id", "0000000000000001")] 0))
           demoDir)
  = [ call_FindOrganization {| of_ID := Some 1%N; of_Name := None |} ] /\
  value (run demoSystem
           (findOrganization (request [("org_id", "0000000000000001")] 0))
           demoDir)
  = Ok {| org_ID := 1%N; org_Name := "myorg" |} /\
  value (run demoSystem
           (findOrganization
              (request [("org", "other"); ("org_id", "0000000000000001")] 0))
           demoDir)
  = Err (errNotFound "organization").
Proof. repeat split; reflexivity. Qed.

(** C5 at work: an ID given as [org] is replaced by the one given as
    [org_id]; a malformed [org_id] ends the resolution without a call. *)
Lemma org_id_sets_filter_ID_witness :
  calls (run demoSystem
           (findOrganization
              (request [("org", "0000000000000007");
                        ("org_id", "0000000000000001")] 0))
           demoDir)
  = [ call_FindOrganization {| of_ID := Some 1%N; of_Name := None |} ] /\
  (let o := run demoSystem
              (findOrganization (request [("org_id", "xyz")] 0)) demoDir in
   value o = Err errInvalidID /\ calls o = [] /\ final o = demoDir).
Proof.
  split.
  - assert (Hne : Get (Query (request [("org", "0000000000000007");
                                       ("org_id", "0000000000000001")] 0))
                      "org_id" <> "") by discriminate.
    pose proof (org_id_sets_filter_ID demoSystem demoDir _ Hne) as A.
    exact (proj1 (proj1 A 1%N eq_refl)).
  - assert (Hne : Get (Query (request [("org_id", "xyz")] 0)) "org_id" <> "")
      by discriminate.
    pose proof (org_id_sets_filter_ID demoSystem demoDir _ Hne) as A.
    exact (proj2 A errInvalidID eq_refl).
Defined.

(** C10 at work: [org=myorg] is looked up by name; the run that makes no
    call is the one with a malformed [org_id]. *)
Lemma malformed_org_is_a_name_witness :
  (exists fid,
     calls (run demoSystem (findOrganization (request [("org", "myorg")] 0))
              demoDir)
     = [ call_FindOrganization {| of_ID := fid; of_Name := Some "myorg" |} ]) /\
  exists e,
    IDFromString "xyz" = Err e /\
    value (run demoSystem
             (findOrganization (request [("org", "myorg"); ("org_id", "xyz")] 0))
             demoDir)
    = Err e.
Proof.
  split.
  - pose proof (malformed_org_is_a_name demoSystem demoDir
                  (request [("org", "myorg")] 0)) as A.
    cbv zeta in A. destruct A as (A & _).
    assert (Hne : Get (Query (request [("org", "myorg")] 0)) "org" <> "")
      by discriminate.
    destruct (A errInvalidID Hne eq_refl (or_introl eq_refl)) as (fid & C & _).
    exists fid. exact C.
  - pose proof (malformed_org_is_a_name demoSystem demoDir
                  (request [("org", "myorg"); ("org_id", "xyz")] 0)) as A.
    cbv zeta in A. destruct A as (_ & A).
    exact (proj2 (A eq_refl)).
Defined.

(** C6 at work: an empty body is answered with status 200, a body with a
    point with status 204, a malformed body with the parser's error, and a
    body that gives a point before "EOF" with that "EOF" error. *)
Lemma empty_body_outcome_witness :
  let answer body :=
    value (run demoSystem
             (handleWrite
                (request [("org", "myorg"); ("bucket", "mybucket")] body))
             demoDir) in
  answer 0 = WriteHeader StatusOK /\
  answer 1 = WriteHeader StatusNoContent /\
  answer 2 = apiErr (Errorf "unable to parse") /\
  answer 3 = apiErr EOF.
Proof.
  cbv zeta.
  pose (T := fun body =>
    empty_body_outcome demoSystem demoDir
      (request [("org", "myorg"); ("bucket", "mybucket")] body) ""
      {| org_ID := 1%N; org_Name := "myorg" |}
      {| bucket_ID := 2%N; bucket_Name := "mybucket";
         bucket_OrganizationID := 1%N |}
      eq_refl eq_refl).
  split; [|split; [|split]].
  - destruct (T 0) as (A & _).
    exact (proj1 (A EOF eq_refl eq_refl eq_refl)).
  - destruct (T 1) as (_ & _ & A & _).
    exact (proj2 (A eq_refl) eq_refl).
  - destruct (T 2) as (_ & A & _).
    refine (proj1 (A (Errorf "unable to parse") eq_refl (or_introl _))).
    discriminate.
  - destruct (T 3) as (_ & A & _).
    refine (proj1 (A EOF eq_refl (or_intror _))).
    discriminate.
Defined.

(** C7, as stated, fails: a destination cut out of the source's own
    backing array ([dst.Timestamps = a.Timestamps[1:2]]) receives the
    source's timestamps, and the source no longer reads as before. *)
Lemma Copy_into_overlap_changes_source :
  let r := Copy src1 overlappingDst demoHeap in
  elems demoHeap (Timestamps src1) = [I64 100; I64 101; I64 102] /\
  elems (snd r) (Timestamps (fst r)) = [I64 100; I64 101; I64 102] /\
  elems (snd r) (Timestamps src1) = [I64 100; I64 100; I64 101] /\
  elems (snd r) (Timestamps src1) <> elems demoHeap (Timestamps src1).
Proof. cbv zeta. repeat split; vm_compute; congruence. Qed.

(** C7 at work: three copies into a destination of its own, from sources of
    lengths 3, 1 and 2; the destination ends with the two elements of the
    third source. *)
Lemma Copy_correct_witness :
  let r1 := Copy src1 ownDst demoHeap in
  let r2 := Copy src2 (fst r1) (snd r1) in
  let r3 := Copy src3 (fst r2) (snd r2) in
  elems (snd r1) (Timestamps src1) = elems demoHeap (Timestamps src1) /\
  len (Timestamps (fst r3)) = 2 /\
  elems (snd r3) (Timestamps (fst r3)) = [I64 112; I64 113] /\
  elems (snd r3) (Values (fst r3)) = [I64 114; I64 115].
Proof.
  cbv zeta.
  assert (Hd : allocatedArray demoHeap ownDst) by (vm_compute; lia).
  assert (H1 : allocatedArray demoHeap src1) by (vm_compute; lia).
  assert (H2 : allocatedArray demoHeap src2) by (vm_compute; lia).
  assert (H3 : allocatedArray demoHeap src3) by (vm_compute; lia).
  assert (S1 : separate src1 ownDst) by (vm_compute; lia).
  assert (S2 : separate src2 ownDst) by (vm_compute; lia).
  assert (S3 : separate src3 ownDst) by (vm_compute; lia).
  pose proof (Copy_correct demoHeap src1 src2 src3 ownDst
                Hd H1 H2 H3 S1 S2 S3) as C.
  cbv zeta in C.
  destruct C as ((_ & _ & C1 & _) & (C2 & _ & C3 & C4)).
  split; [exact C1|]. split; [exact C2|].
  split; [exact C3 | exact C4].
Defined.

(** C8 at work: an array built for five elements, and a copy of a source
    with three timestamps and three values. *)
Lemma lengths_stay_parallel_witness :
  parallel (fst (Copy src1 ownDst demoHeap)) /\
  match newArrayLen 5 demoHeap with
  | Some (a, _) => len (Timestamps a) = 5 /\ len (Values a) = 5
  | None => False
  end.
Proof.
  destruct lengths_stay_parallel as (N & _ & C).
  split.
  - apply (proj2 (proj2 (C src1 ownDst demoHeap))). reflexivity.
  - specialize (N 5%Z demoHeap).
    destruct (newArrayLen 5 demoHeap) as [[a h']|]; [|lia].
    lia.
Defined.

(* ===================================================================== *)
(** * Part IV. Further properties of the handler                          *)
(* ===================================================================== *)

Section CallKinds.
Context `{Platform} {W : Type} (s : System W).
#[local] Open Scope list_scope.

Lemma directory_call_kind (c : Call) :
  isDirectoryCall c = true -> isWrite c = false /\ isBodyCall c = false.
Proof. destruct c; cbn; intros E; try discriminate E; auto. Qed.

Lemma body_call_kind (c : Call) :
  isBodyCall c = true -> isWrite c = false /\ isDirectoryCall c = false.
Proof. destruct c; cbn; intros E; try discriminate E; auto. Qed.

Lemma no_write_among (P : Call -> bool) (cs : list Call) :
  (forall c, P c = true -> isWrite c = false) ->
  forallb P cs = true -> filter isWrite cs = [].
Proof.
  intros HP. induction cs as [|c cs IH]; cbn; [reflexivity|].
  intros E. apply andb_prop in E as [Ec Ecs].
  now rewrite (HP c Ec), IH.
Qed.

Lemma findOrganization_directory (r : Request) (w : W) :
  forallb isDirectoryCall (calls (run s (findOrganization r) w)) = true.
Proof. unfold findOrganization. run_cases. Qed.

Lemma findBucket_directory (r : Request) (orgID : ID) (w : W) :
  forallb isDirectoryCall (calls (run s (findBucket r orgID) w)) = true.
Proof. unfold findBucket. run_cases. Qed.

Lemma findTenantV1_directory (r : Request) (w : W) :
  forallb isDirectoryCall (calls (run s (findTenantV1 r) w)) = true.
Proof. unfold findTenantV1. run_cases. Qed.

Lemma findTenantV2_run (r : Request) (w : W) :
  let oo := run s (findOrganization r) w in
  run s (findTenantV2 r) w =
  match value oo with
  | Err e => {| value := Err e; final := final oo; calls := calls oo |}
  | Ok org =>
      let ob := run s (findBucket r (org_ID org)) (final oo) in
      {| value := match value ob with
                  | Ok bucket => Ok (org, bucket)
                  | Err e => Err e
                  end;
         final := final ob;
         calls := calls oo ++ calls ob |}
  end.
Proof.
  cbv zeta. unfold findTenantV2. rewrite run_bind. cbv zeta.
  destruct (value (run s (findOrganization r) w)) as [org|e];
    cbn [run value final calls].
  - rewrite run_bind. cbv zeta.
    destruct (value (run s (findBucket r (org_ID org))
                         (final (run s (findOrganization r) w))));
      cbn [run value final calls]; now rewrite app_nil_r.
  - now rewrite app_nil_r.
Qed.

Lemma findTenantV2_directory (r : Request) (w : W) :
  forallb isDirectoryCall (calls (run s (findTenantV2 r) w)) = true.
Proof.
  rewrite findTenantV2_run. cbv zeta.
  destruct (value (run s (findOrganization r) w)) as [org|e]; cbn [calls].
  - now rewrite forallb_app, findOrganization_directory, findBucket_directory.
  - apply findOrganization_directory.
Qed.

Lemma findTenant_directory (r : Request) (w : W) :
  forallb isDirectoryCall (calls (run s (findTenant r) w)) = true.
Proof.
  rewrite findTenant_run. cbv zeta.
  destruct (value (run s (findTenantV2 r) w)); cbn [calls].
  - apply findTenantV2_directory.
  - now rewrite forallb_app, findTenantV2_directory, findTenantV1_directory.
Qed.

Lemma parsePoints_body (r : Request) (precision : string) (w : W) :
  forallb isBodyCall (calls (run s (parsePoints r precision) w)) = true.
Proof. unfold parsePoints, readAndParse. run_cases. Qed.

Lemma parsePoints_precision (r : Request) (precision : string) (w : W)
  (buf : bytes) (now : Time) (p : string) :
  In (call_ParsePointsWithPrecision buf now p)
     (calls (run s (parsePoints r precision) w)) ->
  p = precision.
Proof.
  unfold parsePoints, readAndParse.
  repeat (cbn;
          match goal with
          | |- context [match ?x with _ => _ end] => destruct x eqn:?
          end);
  cbn; intuition (try discriminate; congruence).
Qed.

Lemma parseAndWrite_run (r : Request) (precision : string)
  (org : Organization) (bucket : Bucket) (w : W) :
  let op := run s (parsePoints r precision) w in
  run s (parseAndWrite r precision org bucket) w =
  match snd (value op) with
  | Some err =>
      {| value := if String.eqb (Error err) "EOF"
                     && Nat.eqb (length (fst (value op))) 0
                  then WriteHeader StatusOK else apiErr err;
         final := final op;
         calls := calls op |}
  | None =>
      let ow := WritePoints (writeSvc (handler s)) (org_ID org)
                  (bucket_ID bucket) (fst (value op)) (final op) in
      {| value := match fst ow with
                  | Some err => apiErr err
                  | None => WriteHeader StatusNoContent
                  end;
         final := snd ow;
         calls := calls op
                  ++ [call_WritePoints (org_ID org) (bucket_ID bucket)
                        (fst (value op))] |}
  end.
Proof.
  cbv zeta. unfold parseAndWrite. rewrite run_bind. cbv zeta.
  destruct (snd (value (run s (parsePoints r precision) w))) as [err|].
  - destruct (String.eqb (Error err) "EOF"
              && Nat.eqb (length (fst (value (run s (parsePoints r precision) w)))) 0);
      cbn [run value final calls]; now rewrite app_nil_r.
  - cbn.
    destruct (WritePoints (writeSvc (handler s)) _ _ _ _) as [[e|] w']; reflexivity.
Qed.

Lemma normalize_range (p0 p : string) :
  normalizePrecision p0 = Ok p -> In p [""; "n"; "u"; "ms"; "s"].
Proof.
  unfold normalizePrecision.
  destruct (precisionStage1 p0) as [q|e] eqn:E; [|discriminate].
  destruct (stage1_range p0 q E) as [-> | [-> | [-> | [-> | ->]]]];
    cbn; intros [= <-]; auto 6.
Qed.

End CallKinds.

Section HandlerExtras.
Context `{Platform} {W : Type} (s : System W).
#[local] Open Scope list_scope.

(** X1.  A precision other than "", "ns", "us", "ms" and "s" ends the
    request with the first switch's error before any service is called:
    nothing is looked up, read or written. *)
Theorem bad_precision_stops_request (w : W) (r : Request) :
  let p := Get (Query r) "precision" in
  p <> "" -> p <> "ns" -> p <> "us" -> p <> "ms" -> p <> "s" ->
  run s (handleWrite r) w
  = {| value := apiErr (errPrecisionV2 p); final := w; calls := [] |}.
Proof.
  cbv zeta. intros H0 H1 H2 H3 H4.
  apply handleWrite_refused_precision.
  unfold normalizePrecision. now rewrite stage1_reject.
Qed.

(** X2.  Whenever the line-protocol parser is called, it is given the
    normalized precision of the request, one of "", "n", "u", "ms" and
    "s"; it never sees the tokens "ns" and "us". *)
Theorem parser_gets_normalized_precision (w : W) (r : Request)
  (buf : bytes) (now : Time) (p : string) :
  In (call_ParsePointsWithPrecision buf now p)
     (calls (run s (handleWrite r) w)) ->
  normalizePrecision (Get (Query r) "precision") = Ok p /\
  In p [""; "n"; "u"; "ms"; "s"].
Proof.
  intros Hin.
  destruct (normalizePrecision (Get (Query r) "precision")) as [p0|e] eqn:Hp.
  2:{ rewrite (handleWrite_refused_precision s w r e Hp) in Hin.
      contradiction Hin. }
  assert (p = p0); [|subst; split; [reflexivity | eapply normalize_range; eauto]].
  rewrite (handleWrite_run s w r p0 Hp) in Hin. cbv zeta in Hin.
  pose proof (findTenant_directory s r w) as Hd.
  rewrite forallb_forall in Hd.
  destruct (value (run s (findTenant r) w)) as [[org bucket]|e];
    cbn [calls] in Hin.
  - apply in_app_or in Hin as [Hin|Hin].
    + apply Hd in Hin. discriminate Hin.
    + rewrite parseAndWrite_run in Hin. cbv zeta in Hin.
      destruct (snd (value (run s (parsePoints r p0) _))); cbn [calls] in Hin.
      * eapply parsePoints_precision; eauto.
      * apply in_app_or in Hin as [Hin|[Hin|[]]]; [|discriminate Hin].
        eapply parsePoints_precision; eauto.
  - apply Hd in Hin. discriminate Hin.
Qed.

(** X3.  A request writes at most once.  The answer 204 is given only
    after a write, which is then the last call of the run; the answer 200
    of the empty body is given without any write. *)
Theorem write_at_most_once (w : W) (r : Request) :
  let o := run s (handleWrite r) w in
  length (filter isWrite (calls o)) <= 1 /\
  (value o = WriteHeader StatusNoContent ->
   exists cs orgID bucketID points,
     calls o = cs ++ [call_WritePoints orgID bucketID points] /\
     filter isWrite cs = []) /\
  (value o = WriteHeader StatusOK -> filter isWrite (calls o) = []).
Proof.
  cbv zeta.
  destruct (normalizePrecision (Get (Query r) "precision")) as [p0|e] eqn:Hp.
  2:{ rewrite (handleWrite_refused_precision s w r e Hp). cbn.
      repeat split; try discriminate. lia. }
  rewrite (handleWrite_run s w r p0 Hp). cbv zeta.
  assert (Ht : filter isWrite (calls (run s (findTenant r) w)) = []).
  { apply (no_write_among isDirectoryCall);
      [apply directory_call_kind | apply findTenant_directory]. }
  destruct (value (run s (findTenant r) w)) as [[org bucket]|e];
    cbn [value calls].
  2:{ rewrite Ht. cbn. repeat split; try discriminate. lia. }
  rewrite parseAndWrite_run. cbv zeta.
  set (op := run s (parsePoints r p0) (final (run s (findTenant r) w))).
  assert (Hb : filter isWrite (calls op) = []).
  { apply (no_write_among isBodyCall);
      [apply body_call_kind | apply parsePoints_body]. }
  destruct (snd (value op)) as [err|]; cbn [value calls].
  - rewrite filter_app, Ht, Hb. cbn. split; [lia|]. split; [|reflexivity].
    destruct (String.eqb (Error err) "EOF" && Nat.eqb (length (fst (value op))) 0);
      discriminate.
  - rewrite !filter_app, Ht, Hb. cbn. split; [lia|]. split.
    + intros _.
      exists (calls (run s (findTenant r) w) ++ calls op),
        (org_ID org), (bucket_ID bucket), (fst (value op)).
      split; [now rewrite app_assoc|].
      now rewrite filter_app, Ht, Hb.
    + destruct (fst (WritePoints (writeSvc (handler s)) _ _ _ _)); discriminate.
Qed.

(** X4.  With the tenant resolved and the body parsed without error, the
    run ends with one write of exactly the parsed points to the IDs of the
    resolved organization and bucket; an error of the write is answered
    as it is, and no error is answered with 204. *)
Theorem write_dispatch (w : W) (r : Request) (precision : string)
  (org : Organization) (bucket : Bucket) :
  normalizePrecision (Get (Query r) "precision") = Ok precision ->
  let ot := run s (findTenant r) w in
  value ot = Ok (org, bucket) ->
  let op := run s (parsePoints r precision) (final ot) in
  snd (value op) = None ->
  let ow := WritePoints (writeSvc (handler s)) (org_ID org) (bucket_ID bucket)
              (fst (value op)) (final op) in
  let o := run s (handleWrite r) w in
  calls o = calls ot ++ calls op
            ++ [call_WritePoints (org_ID org) (bucket_ID bucket)
                  (fst (value op))] /\
  final o = snd ow /\
  (forall e, fst ow = Some e -> value o = apiErr e) /\
  (fst ow = None -> value o = WriteHeader StatusNoContent).
Proof.
  intros Hp. cbv zeta. intros Ht Hparse.
  rewrite (handleWrite_run s w r precision Hp). cbv zeta. rewrite Ht.
  rewrite parseAndWrite_run. cbv zeta. rewrite Hparse. cbn [value final calls].
  split; [reflexivity|]. split; [reflexivity|].
  split; [intros e He | intros He]; now rewrite He.
Qed.

(** X5.  When no scheme resolves the tenant, the request ends there: the
    answer is the resolution error, every call made is a directory lookup,
    and the body is neither read nor parsed. *)
Theorem tenant_failure_reads_no_body (w : W) (r : Request)
  (precision : string) (e : error) :
  normalizePrecision (Get (Query r) "precision") = Ok precision ->
  let ot := run s (findTenant r) w in
  value ot = Err e ->
  let o := run s (handleWrite r) w in
  value o = apiErr e /\ calls o = calls ot /\ final o = final ot /\
  forallb isDirectoryCall (calls o) = true /\
  filter isBodyCall (calls o) = [] /\ filter isWrite (calls o) = [].
Proof.
  intros Hp. cbv zeta. intros Ht.
  rewrite (handleWrite_run s w r precision Hp). cbv zeta. rewrite Ht.
  cbn [value final calls].
  pose proof (findTenant_directory s r w) as Hd.
  repeat split; trivial.
  - clear Ht. induction (calls (run s (findTenant r) w)) as [|c cs IH];
      [reflexivity|].
    cbn in Hd |- *. apply andb_prop in Hd as [Hc Hcs].
    now rewrite (proj2 (directory_call_kind c Hc)), IH.
  - apply (no_write_among isDirectoryCall);
      [apply directory_call_kind | exact Hd].
Qed.

End HandlerExtras.

Section ResolutionExtras.
Context `{Platform} {W : Type} (s : System W).
#[local] Open Scope list_scope.

(** X6.  Without the header [Content-Encoding: gzip] the body is read as
    it is.  A read error is returned with no point and the parser is not
    called; otherwise the clock is read after the body and the parser is
    given the bytes read, that time and the precision, and its answer is
    returned with points and error as they come. *)
Theorem parsePoints_plain (w : W) (r : Request) (precision : string) :
  Get (Header r) "Content-Encoding" <> "gzip" ->
  let rd := buf_ReadFrom s (Body r) w in
  let o := run s (parsePoints r precision) w in
  (forall e, fst rd = Err e ->
     value o = ([], Some e) /\ calls o = [call_ReadFrom (Body r)] /\
     final o = snd rd) /\
  (forall buf, fst rd = Ok buf ->
     let nw := time_Now s (snd rd) in
     value o = models_ParsePointsWithPrecision s buf (fst nw) precision /\
     calls o = [call_ReadFrom (Body r); call_Now;
                call_ParsePointsWithPrecision buf (fst nw) precision] /\
     final o = snd nw).
Proof.
  intros Hh. cbv zeta. apply String.eqb_neq in Hh.
  unfold parsePoints, readAndParse. rewrite Hh. cbn.
  destruct (buf_ReadFrom s (Body r) w) as [[buf|e] w1]; cbn.
  - split; [intros e [=]|]. intros buf' [= <-]. auto.
  - split; [|intros buf [=]]. intros e' [= <-]. auto.
Qed.

(** X7.  With the header [Content-Encoding: gzip] the first call opens a
    gzip reader on the body.  If that fails, the error is returned with no
    point and nothing is read; if it succeeds, what is read and parsed is
    the gzip reader, not the raw body. *)
Theorem parsePoints_gzip (w : W) (r : Request) (precision : string) :
  Get (Header r) "Content-Encoding" = "gzip" ->
  let gz := gzip_NewReader s (Body r) w in
  let o := run s (parsePoints r precision) w in
  hd_error (calls o) = Some (call_gzipNewReader (Body r)) /\
  (forall e, fst gz = Err e ->
     value o = ([], Some e) /\ calls o = [call_gzipNewReader (Body r)] /\
     final o = snd gz) /\
  (forall b, fst gz = Ok b ->
     let rd := buf_ReadFrom s b (snd gz) in
     nth_error (calls o) 1 = Some (call_ReadFrom b) /\
     (forall e, fst rd = Err e ->
        value o = ([], Some e) /\
        calls o = [call_gzipNewReader (Body r); call_ReadFrom b]) /\
     (forall buf, fst rd = Ok buf ->
        let nw := time_Now s (snd rd) in
        value o = models_ParsePointsWithPrecision s buf (fst nw) precision /\
        calls o = [call_gzipNewReader (Body r); call_ReadFrom b; call_Now;
                   call_ParsePointsWithPrecision buf (fst nw) precision])).
Proof.
  intros Hh. cbv zeta.
  unfold parsePoints, readAndParse. rewrite Hh. cbn.
  destruct (gzip_NewReader s (Body r) w) as [[b|e] w1]; cbn.
  - split; [reflexivity|]. split; [intros e [=]|]. intros b' [= <-].
    destruct (buf_ReadFrom s b w1) as [[buf|e] w2]; cbn.
    + split; [reflexivity|]. split; [intros e [=]|].
      intros buf' [= <-]. auto.
    + split; [reflexivity|]. split; [|intros buf [=]].
      intros e' [= <-]. auto.
  - split; [reflexivity|]. split; [|intros b [=]].
    intros e' [= <-]. auto.
Qed.


(** X9.  When the bucket parameter is not a well-formed ID (a missing
    parameter, the empty string, included if [IDFromString] refuses it),
    the bucket is looked up once, by name within the organization, and the
    directory's answer is returned. *)
Theorem findBucket_by_name (w : W) (r : Request) (orgID : ID) (e : error) :
  IDFromString (Get (Query r) "bucket") = Err e ->
  let byName := {| bf_OrganizationID := Some orgID; bf_ID := None;
                   bf_Name := Some (Get (Query r) "bucket") |} in
  let o := run s (findBucket r orgID) w in
  calls o = [call_FindBucket byName] /\
  (value o, final o) = FindBucket (bucketSvc (handler s)) byName w.
Proof.
  intros He. cbv zeta. unfold findBucket. rewrite He. cbn.
  split; [reflexivity|].
  now destruct (FindBucket (bucketSvc (handler s)) _ w).
Qed.

Lemma findBucket_calls_in_org (w : W) (r : Request) (orgID : ID) :
  Forall (isBucketLookupIn orgID) (calls (run s (findBucket r orgID) w)).
Proof.
  unfold findBucket, isBucketLookupIn.
  repeat (cbn;
          match goal with
          | |- context [match ?x with _ => _ end] => destruct x eqn:?
          end);
    cbn; repeat constructor; eexists; split; reflexivity.
Qed.

(** X10.  Every call of the bucket resolution is a bucket lookup by filter
    within the organization it was given, and there are one or two of
    them: it never looks a bucket up outside that organization. *)
Theorem findBucket_stays_in_org (w : W) (r : Request) (orgID : ID) :
  let o := run s (findBucket r orgID) w in
  Forall (isBucketLookupIn orgID) (calls o) /\
  1 <= length (calls o) <= 2.
Proof.
  cbv zeta. split; [apply findBucket_calls_in_org|].
  unfold findBucket. run_cases; cbn; lia.
Qed.

(** X11.  Without an [org_id] parameter the organization directory is
    asked exactly once: with an empty filter when [org] is missing or
    empty, and with the ID alone when [org] is a well-formed ID. *)
Theorem findOrganization_without_org_id (w : W) (r : Request) :
  Get (Query r) "org_id" = "" ->
  let organization := Get (Query r) "org" in
  let o := run s (findOrganization r) w in
  (organization = "" ->
     let filter := {| of_ID := None; of_Name := None |} in
     calls o = [call_FindOrganization filter] /\
     (value o, final o) = FindOrganization (orgSvc (handler s)) filter w) /\
  (forall id, organization <> "" -> IDFromString organization = Ok id ->
     let filter := {| of_ID := Some id; of_Name := None |} in
     calls o = [call_FindOrganization filter] /\
     (value o, final o) = FindOrganization (orgSvc (handler s)) filter w) /\
  length (calls o) = 1.
Proof.
  intros Hreq. cbv zeta. unfold findOrganization. rewrite Hreq. cbn.
  split; [|split].
  - intros ->. cbn. split; [reflexivity|].
    now destruct (FindOrganization (orgSvc (handler s)) _ w).
  - intros id Hne Hid. apply String.eqb_neq in Hne. rewrite Hne, Hid. cbn.
    split; [reflexivity|].
    now destruct (FindOrganization (orgSvc (handler s)) _ w).
  - reflexivity.
Qed.

(** X12.  The current scheme resolves the organization first.  If that
    fails, its error is returned and no bucket is looked up; otherwise the
    bucket is resolved within the ID of the organization found, and the
    pair returned is that organization with that bucket. *)
Theorem findTenantV2_org_then_bucket (w : W) (r : Request) :
  let oo := run s (findOrganization r) w in
  let o := run s (findTenantV2 r) w in
  (forall e, value oo = Err e ->
     value o = Err e /\ calls o = calls oo /\ final o = final oo /\
     filter (fun c => match c with call_FindBucket _ => true | _ => false end)
            (calls o) = []) /\
  (forall org, value oo = Ok org ->
     let ob := run s (findBucket r (org_ID org)) (final oo) in
     calls o = calls oo ++ calls ob /\ final o = final ob /\
     Forall (isBucketLookupIn (org_ID org)) (calls ob) /\
     (forall bucket, value ob = Ok bucket -> value o = Ok (org, bucket)) /\
     (forall e, value ob = Err e -> value o = Err e)).
Proof.
  cbv zeta. rewrite findTenantV2_run. cbv zeta. split.
  - intros e He. rewrite He. cbn [value final calls].
    repeat split.
    revert He. unfold findOrganization. run_cases.
  - intros org Ho. rewrite Ho. cbn [value final calls].
    split; [reflexivity|]. split; [reflexivity|].
    split; [apply findBucket_calls_in_org|].
    split; [intros b Hb | intros e He]; now rewrite ?Hb, ?He.
Qed.

(** X13.  How the legacy scheme fails.  The mapping filter always carries
    both [db] and [rp], as empty strings when the parameters are missing.
    An error of the mapping lookup is returned after that one call; with
    one mapping, an error of the organization lookup is returned without
    any bucket lookup, and an error of the bucket lookup is returned after
    the three calls. *)
Theorem findTenantV1_failures (w : W) (r : Request) :
  let filter := {| ff_Database := Some (Get (Query r) "db");
                   ff_RetentionPolicy := Some (Get (Query r) "rp") |} in
  let found := FindMany (dbrpSvc (handler s)) filter w in
  let o := run s (findTenantV1 r) w in
  (forall e, fst found = Err e ->
     value o = Err e /\ calls o = [call_FindMany filter] /\
     final o = snd found) /\
  (forall m, fst found = Ok [m] ->
     let byOrg := FindOrganizationByID (orgSvc (handler s))
                    (OrganizationID m) (snd found) in
     (forall e, fst byOrg = Err e ->
        value o = Err e /\
        calls o = [call_FindMany filter;
                   call_FindOrganizationByID (OrganizationID m)] /\
        final o = snd byOrg) /\
     (forall org, fst byOrg = Ok org ->
        let byBucket := FindBucketByID (bucketSvc (handler s))
                          (BucketID m) (snd byOrg) in
        calls o = [call_FindMany filter;
                   call_FindOrganizationByID (OrganizationID m);
                   call_FindBucketByID (BucketID m)] /\
        final o = snd byBucket /\
        (forall e, fst byBucket = Err e -> value o = Err e))).
Proof.
  cbv zeta. unfold findTenantV1. cbn.
  destruct (FindMany (dbrpSvc (handler s)) _ w) as [[ms|e] w1]; cbn.
  2:{ split; [|intros m [=]]. intros e' [= <-]. auto. }
  split; [intros e [=]|].
  intros m [= ->]. cbn.
  destruct (FindOrganizationByID (orgSvc (handler s)) _ w1) as [[org|e] w2]; cbn.
  2:{ split; [|intros org [=]]. intros e' [= <-]. auto. }
  split; [intros e [=]|].
  intros org' [= <-].
  destruct (FindBucketByID (bucketSvc (handler s)) _ w2) as [[b|e] w3]; cbn.
  - split; [reflexivity|]. split; [reflexivity|]. intros e [=].
  - split; [reflexivity|]. split; [reflexivity|]. now intros e' [= <-].
Qed.

(** X23.  A body announced as gzip whose gzip reader cannot be opened is
    never read.  With the precision accepted and the tenant resolved, the
    request is answered with status 200 when the text of that error is
    "EOF" (a compressed body that holds nothing) and with the error
    otherwise; nothing is written. *)
Theorem gzip_open_failure_answer (w : W) (r : Request) (precision : string)
  (org : Organization) (bucket : Bucket) (e : error) :
  normalizePrecision (Get (Query r) "precision") = Ok precision ->
  Get (Header r) "Content-Encoding" = "gzip" ->
  let ot := run s (findTenant r) w in
  value ot = Ok (org, bucket) ->
  let gz := gzip_NewReader s (Body r) (final ot) in
  fst gz = Err e ->
  let o := run s (handleWrite r) w in
  value o = (if String.eqb (Error e) "EOF" then WriteHeader StatusOK
             else apiErr e) /\
  calls o = calls ot ++ [call_gzipNewReader (Body r)] /\
  final o = snd gz.
Proof.
  intros Hp Hh. cbv zeta. intros Ht Hgz.
  rewrite (handleWrite_run s w r precision Hp). cbv zeta. rewrite Ht.
  rewrite parseAndWrite_run. cbv zeta.
  unfold parsePoints. rewrite Hh. cbn.
  destruct (gzip_NewReader s (Body r) (final (run s (findTenant r) w)))
    as [[b|e'] w1]; cbn in Hgz |- *; [discriminate Hgz|].
  injection Hgz as ->.
  rewrite andb_true_r. auto.
Qed.

End ResolutionExtras.

(* ===================================================================== *)
(** * Part V. Further properties of the typed arrays                      *)
(* ===================================================================== *)

Section StoreCells.
Context `{Variant} `{GoRuntime}.
#[local] Open Scope nat_scope.
#[local] Open Scope list_scope.

(** Storing back what is read from the same place changes no cell. *)
Lemma store_same_content (m m' : nat -> cell) (p n : nat) :
  (forall a, m' a = m a) ->
  forall a, store m' p (map m (seq p n)) a = m a.
Proof.
  intros Hm a. unfold store. rewrite length_map, length_seq.
  destruct (Nat.leb_spec p a); cbn [andb]; [|apply Hm].
  destruct (Nat.ltb_spec a (p + n)); [|apply Hm].
  rewrite (nth_indep _ _ (m a)) by (rewrite length_map, length_seq; lia).
  rewrite map_nth, seq_nth by lia. f_equal. lia.
Qed.

(** [append(d[:0], xs...)] cell by cell: when [xs] fits, the header keeps
    its place and capacity, nothing is handed out and only the first
    [length xs] cells of [d] are written; when it does not, the slice moves
    to fresh cells and no cell handed out before is written. *)
Lemma append_reslice0_cells (zero : cell) (d : slice) (xs : list cell) (h : Heap) :
  let r := append zero (reslice0 d) xs h in
  (length xs <= cap d ->
     fst r = {| ptr := ptr d; len := length xs; cap := cap d |} /\
     brk (snd r) = brk h /\
     forall a, a < ptr d \/ ptr d + length xs <= a ->
               mem (snd r) a = mem h a) /\
  (cap d < length xs ->
     ptr (fst r) = brk h /\ len (fst r) = length xs /\
     cap (fst r) = growcap (cap d) (length xs) /\
     brk (snd r) = brk h + cap (fst r) /\
     forall a, a < brk h -> mem (snd r) a = mem h a).
Proof.
  cbv zeta. unfold append, reslice0. cbn [len ptr cap].
  rewrite Nat.add_0_l, Nat.add_0_r.
  destruct (Nat.leb_spec (length xs) (cap d)) as [Hfit|Hgrow]; cbn [fst snd].
  - split; [|lia]. intros _. split; [reflexivity|]. split; [reflexivity|].
    intros a Ha. cbn [mem]. now apply store_outside.
  - split; [lia|]. intros _. cbn [ptr len cap brk mem].
    repeat (split; [reflexivity|]).
    intros a Ha. rewrite !store_outside; trivial; lia.
Qed.

(** [make]: a slice of [n] zero values on fresh cells; the slices handed
    out before keep their elements. *)
Lemma make_fresh (zero : cell) (n : nat) (h : Heap) :
  let r := make zero n h in
  fst r = {| ptr := brk h; len := n; cap := n |} /\
  brk (snd r) = brk h + n /\
  elems (snd r) (fst r) = repeat zero n /\
  forall t : slice, ptr t + len t <= brk h -> elems (snd r) t = elems h t.
Proof.
  cbv zeta. unfold make. cbn [fst snd brk].
  split; [reflexivity|]. split; [reflexivity|]. split.
  - unfold elems. cbn [mem ptr len].
    rewrite <- (repeat_length zero n) at 2. apply read_store_same.
  - intros t Ht. unfold elems. cbn [mem].
    apply read_store_apart. left. exact Ht.
Qed.

End StoreCells.

Section ArrayExtras.
Context `{Variant} `{GoRuntime}.
#[local] Open Scope nat_scope.
#[local] Open Scope list_scope.

(** The headers [Copy] leaves in the destination, field by field, and the
    cells it takes from the store. *)
Lemma Copy_headers (h : Heap) (a dst : Array) :
  let r := Copy a dst h in
  let t := Timestamps (fst r) in
  let v := Values (fst r) in
  (len (Timestamps a) <= cap (Timestamps dst) ->
     ptr t = ptr (Timestamps dst) /\ cap t = cap (Timestamps dst)) /\
  (cap (Timestamps dst) < len (Timestamps a) ->
     ptr t = brk h /\ len (Timestamps a) <= cap t) /\
  (len (Values a) <= cap (Values dst) ->
     ptr v = ptr (Values dst) /\ cap v = cap (Values dst)) /\
  (cap (Values dst) < len (Values a) -> len (Values a) <= cap v) /\
  brk (snd r)
  = brk h
    + (if len (Timestamps a) <=? cap (Timestamps dst) then 0 else cap t)
    + (if len (Values a) <=? cap (Values dst) then 0 else cap v).
Proof.
  cbv zeta. unfold Copy. cbn [fst snd Timestamps Values].
  pose proof (append_reslice0_cells (I64 0) (Timestamps dst)
                (elems h (Timestamps a)) h) as A1.
  cbv zeta in A1.
  set (th := append (I64 0) (reslice0 (Timestamps dst))
               (elems h (Timestamps a)) h) in *.
  pose proof (append_reslice0_cells (Val zeroT) (Values dst)
                (elems (snd th) (Values a)) (snd th)) as A2.
  cbv zeta in A2.
  set (vh := append (Val zeroT) (reslice0 (Values dst))
               (elems (snd th) (Values a)) (snd th)) in *.
  rewrite !length_elems in A1, A2.
  destruct A1 as (F1 & G1). destruct A2 as (F2 & G2).
  pose proof (growcap_ge (cap (Timestamps dst)) (len (Timestamps a))) as C1.
  pose proof (growcap_ge (cap (Values dst)) (len (Values a))) as C2.
  destruct (Nat.leb_spec (len (Timestamps a)) (cap (Timestamps dst))) as [T|T];
    destruct (Nat.leb_spec (len (Values a)) (cap (Values dst))) as [V|V].
  - destruct (F1 T) as (E1 & B1 & _). destruct (F2 V) as (E2 & B2 & _).
    rewrite E1, E2. cbn [ptr cap]. repeat split; lia.
  - destruct (F1 T) as (E1 & B1 & _).
    destruct (G2 V) as (P2 & L2 & K2 & B2 & _).
    rewrite E1. cbn [ptr cap]. repeat split; lia.
  - destruct (G1 T) as (P1 & L1 & K1 & B1 & _).
    destruct (F2 V) as (E2 & B2 & _).
    rewrite E2. cbn [ptr cap]. repeat split; lia.
  - destruct (G1 T) as (P1 & L1 & K1 & B1 & _).
    destruct (G2 V) as (P2 & L2 & K2 & B2 & _).
    repeat split; lia.
Qed.

(** X14.  [Copy] takes cells from the store exactly when a field of the
    source is longer than the capacity of the same field of the
    destination.  A field that fits is written where the destination's
    field already is, with the capacity it had. *)
Theorem Copy_allocates_only_when_short (h : Heap) (a dst : Array) :
  let r := Copy a dst h in
  (brk (snd r) = brk h <->
   len (Timestamps a) <= cap (Timestamps dst) /\
   len (Values a) <= cap (Values dst)) /\
  (len (Timestamps a) <= cap (Timestamps dst) ->
   ptr (Timestamps (fst r)) = ptr (Timestamps dst) /\
   cap (Timestamps (fst r)) = cap (Timestamps dst)) /\
  (len (Values a) <= cap (Values dst) ->
   ptr (Values (fst r)) = ptr (Values dst) /\
   cap (Values (fst r)) = cap (Values dst)).
Proof.
  cbv zeta.
  destruct (Copy_headers h a dst) as (T1 & T2 & V1 & V2 & B). cbv zeta in *.
  split; [|split; assumption].
  rewrite B.
  destruct (Nat.leb_spec (len (Timestamps a)) (cap (Timestamps dst))) as [T|T];
    destruct (Nat.leb_spec (len (Values a)) (cap (Values dst))) as [V|V];
    try specialize (T2 T); try specialize (V2 V); lia.
Qed.

(** X15.  The capacity of the destination never shrinks and covers the
    source just copied, so that a second [Copy], from any source that is
    not longer than the first, takes no cell from the store and leaves
    the destination's fields where they are. *)
Theorem Copy_again_in_place (h : Heap) (a1 a2 dst : Array) :
  len (Timestamps a2) <= len (Timestamps a1) ->
  len (Values a2) <= len (Values a1) ->
  let r1 := Copy a1 dst h in
  let r2 := Copy a2 (fst r1) (snd r1) in
  (cap (Timestamps dst) <= cap (Timestamps (fst r1)) /\
   cap (Values dst) <= cap (Values (fst r1)) /\
   len (Timestamps a1) <= cap (Timestamps (fst r1)) /\
   len (Values a1) <= cap (Values (fst r1))) /\
  brk (snd r2) = brk (snd r1) /\
  ptr (Timestamps (fst r2)) = ptr (Timestamps (fst r1)) /\
  cap (Timestamps (fst r2)) = cap (Timestamps (fst r1)) /\
  ptr (Values (fst r2)) = ptr (Values (fst r1)) /\
  cap (Values (fst r2)) = cap (Values (fst r1)).
Proof.
  intros LT LV. cbv zeta.
  destruct (Copy_headers h a1 dst) as (T1 & T2 & V1 & V2 & _). cbv zeta in *.
  assert (C : (cap (Timestamps dst) <= cap (Timestamps (fst (Copy a1 dst h))) /\
               cap (Values dst) <= cap (Values (fst (Copy a1 dst h))) /\
               len (Timestamps a1) <= cap (Timestamps (fst (Copy a1 dst h))) /\
               len (Values a1) <= cap (Values (fst (Copy a1 dst h))))).
  { destruct (Nat.le_gt_cases (len (Timestamps a1)) (cap (Timestamps dst))) as [T|T];
      destruct (Nat.le_gt_cases (len (Values a1)) (cap (Values dst))) as [V|V];
      try specialize (T1 T); try specialize (T2 T);
      try specialize (V1 V); try specialize (V2 V); lia. }
  split; [exact C|].
  set (r1 := Copy a1 dst h) in *.
  destruct (Copy_headers (snd r1) a2 (fst r1)) as (S1 & _ & S2 & _ & B).
  cbv zeta in *.
  assert (FT : len (Timestamps a2) <= cap (Timestamps (fst r1))) by lia.
  assert (FV : len (Values a2) <= cap (Values (fst r1))) by lia.
  destruct (S1 FT) as (-> & ->). destruct (S2 FV) as (-> & ->).
  rewrite B.
  destruct (Nat.leb_spec (len (Timestamps a2)) (cap (Timestamps (fst r1))));
    destruct (Nat.leb_spec (len (Values a2)) (cap (Values (fst r1))));
    repeat split; lia.
Qed.

(** X16.  [Copy] writes, among the cells handed out before, only the
    first [len] cells of a destination field into which the source's field
    fits: every other such cell keeps its content, the destination's own
    cells past the new length included. *)
Theorem Copy_writes_only_destination (h : Heap) (a dst : Array) (addr : nat) :
  addr < brk h ->
  (addr < ptr (Timestamps dst) \/
   ptr (Timestamps dst) + len (Timestamps a) <= addr \/
   cap (Timestamps dst) < len (Timestamps a)) ->
  (addr < ptr (Values dst) \/
   ptr (Values dst) + len (Values a) <= addr \/
   cap (Values dst) < len (Values a)) ->
  mem (snd (Copy a dst h)) addr = mem h addr.
Proof.
  intros Hb HT HV. unfold Copy. cbn [fst snd].
  pose proof (append_reslice0_cells (I64 0) (Timestamps dst)
                (elems h (Timestamps a)) h) as A1.
  cbv zeta in A1.
  set (th := append (I64 0) (reslice0 (Timestamps dst))
               (elems h (Timestamps a)) h) in *.
  pose proof (append_reslice0_cells (Val zeroT) (Values dst)
                (elems (snd th) (Values a)) (snd th)) as A2.
  cbv zeta in A2.
  set (vh := append (Val zeroT) (reslice0 (Values dst))
               (elems (snd th) (Values a)) (snd th)) in *.
  rewrite !length_elems in A1, A2.
  destruct A1 as (F1 & G1). destruct A2 as (F2 & G2).
  assert (M1 : mem (snd th) addr = mem h addr /\ brk h <= brk (snd th)).
  { destruct (Nat.le_gt_cases (len (Timestamps a)) (cap (Timestamps dst))) as [T|T].
    - destruct (F1 T) as (_ & B1 & K1). split; [apply K1; lia | lia].
    - destruct (G1 T) as (_ & _ & _ & B1 & K1). split; [now apply K1 | lia]. }
  destruct M1 as (M1 & B1). rewrite <- M1.
  destruct (Nat.le_gt_cases (len (Values a)) (cap (Values dst))) as [V|V].
  - destruct (F2 V) as (_ & _ & K2). apply K2. lia.
  - destruct (G2 V) as (_ & _ & _ & _ & K2). apply K2. lia.
Qed.

(** X17.  Copying an array onto itself (the destination being the source
    struct) changes nothing: the headers are the same and every cell of
    the store keeps its content. *)
Theorem Copy_onto_itself (h : Heap) (a : Array) :
  len (Timestamps a) <= cap (Timestamps a) ->
  len (Values a) <= cap (Values a) ->
  let r := Copy a a h in
  fst r = a /\ brk (snd r) = brk h /\
  forall addr, mem (snd r) addr = mem h addr.
Proof.
  intros LT LV. cbv zeta.
  destruct a as [[pt lt ct] [pv lv cv]]. cbn [Timestamps Values len cap] in *.
  unfold Copy, append, reslice0. cbn [Timestamps Values len ptr cap fst snd].
  rewrite !Nat.add_0_l, !Nat.add_0_r.
  rewrite length_elems. cbn [len].
  destruct (Nat.leb_spec lt ct) as [_|]; [|lia]. cbn [fst snd].
  rewrite length_elems. cbn [len].
  destruct (Nat.leb_spec lv cv) as [_|]; [|lia]. cbn [fst snd brk mem].
  split; [reflexivity|]. split; [reflexivity|].
  intros addr. unfold elems. cbn [mem ptr len].
  rewrite store_same_content; [|reflexivity].
  apply store_same_content. reflexivity.
Qed.

(** X18.  For a size that is not negative, [new<T>ArrayLen] gives an
    array whose timestamps are all zero and whose values are all the zero
    value of the type, each field with capacity equal to its length, on
    cells that no slice handed out before can reach: those slices keep
    their elements. *)
Theorem newArrayLen_zeroed_and_fresh (sz : Z) (h : Heap) :
  (0 <= sz)%Z ->
  exists a h',
    newArrayLen sz h = Some (a, h') /\
    elems h' (Timestamps a) = repeat (I64 0) (Z.to_nat sz) /\
    elems h' (Values a) = repeat (Val zeroT) (Z.to_nat sz) /\
    cap (Timestamps a) = len (Timestamps a) /\
    cap (Values a) = len (Values a) /\
    allocatedArray h' a /\
    apart (storage (Timestamps a)) (storage (Values a)) /\
    brk h' = brk h + 2 * Z.to_nat sz /\
    forall t : slice,
      allocated h t ->
      elems h' t = elems h t /\
      apart (storage (Timestamps a)) (extent t) /\
      apart (storage (Values a)) (extent t).
Proof.
  intros Hsz. unfold newArrayLen.
  destruct (Z.ltb_spec sz 0) as [|_]; [lia|].
  set (n := Z.to_nat sz).
  destruct (make_fresh (I64 0) n h) as (E1 & B1 & Z1 & F1).
  set (th := make (I64 0) n h) in *.
  destruct (make_fresh (Val zeroT) n (snd th)) as (E2 & B2 & Z2 & F2).
  set (vh := make (Val zeroT) n (snd th)) in *.
  exists {| Timestamps := fst th; Values := fst vh |}, (snd vh).
  cbn [Timestamps Values].
  split; [reflexivity|].
  split.
  { rewrite F2; [exact Z1|]. rewrite E1. cbn [ptr len]. lia. }
  split; [exact Z2|].
  rewrite E1, E2. cbn [ptr len cap].
  split; [reflexivity|]. split; [reflexivity|].
  split; [unfold allocatedArray, allocated; cbn [Timestamps Values ptr len cap]; lia|].
  split; [unfold apart, storage; cbn [fst snd ptr cap]; lia|].
  split; [lia|].
  intros t (Ht1 & Ht2).
  split; [rewrite F2, F1; trivial; lia|].
  unfold apart, storage, extent; cbn [fst snd ptr cap]. split; lia.
Qed.

(** X19.  A freshly built array is a destination for any array that
    exists: after [new<T>ArrayLen] and [Copy] it holds the source's
    elements and the source reads as before; if the size asked for covers
    both fields of the source, the copy takes no further cell from the
    store. *)
Theorem Construct_then_Copy (sz : Z) (h : Heap) (a : Array) :
  (0 <= sz)%Z -> allocatedArray h a ->
  exists d h1,
    newArrayLen sz h = Some (d, h1) /\
    let r := Copy a d h1 in
    elems (snd r) (Timestamps (fst r)) = elems h (Timestamps a) /\
    elems (snd r) (Values (fst r)) = elems h (Values a) /\
    elems (snd r) (Timestamps a) = elems h (Timestamps a) /\
    elems (snd r) (Values a) = elems h (Values a) /\
    (len (Timestamps a) <= Z.to_nat sz -> len (Values a) <= Z.to_nat sz ->
     brk (snd r) = brk h1).
Proof.
  intros Hsz (HaT & HaV). unfold newArrayLen.
  destruct (Z.ltb_spec sz 0) as [|_]; [lia|].
  set (n := Z.to_nat sz).
  destruct (make_fresh (I64 0) n h) as (E1 & B1 & _ & F1).
  set (th := make (I64 0) n h) in *.
  destruct (make_fresh (Val zeroT) n (snd th)) as (E2 & B2 & _ & F2).
  set (vh := make (Val zeroT) n (snd th)) in *.
  exists {| Timestamps := fst th; Values := fst vh |}, (snd vh).
  split; [reflexivity|]. cbv zeta.
  set (d := {| Timestamps := fst th; Values := fst vh |}).
  assert (KT : elems (snd vh) (Timestamps a) = elems h (Timestamps a)).
  { rewrite F2, F1; trivial; clear - HaT B1; ranges. }
  assert (KV : elems (snd vh) (Values a) = elems h (Values a)).
  { rewrite F2, F1; trivial; clear - HaV B1; ranges. }
  assert (Ha' : allocatedArray (snd vh) a).
  { clear - HaT HaV B1 B2. ranges. }
  assert (Hd : allocatedArray (snd vh) d).
  { unfold d, allocatedArray, allocated. cbn [Timestamps Values].
    rewrite E1, E2. cbn [ptr len cap]. lia. }
  assert (Hs : separate a d).
  { unfold d, separate, apart, storage, extent. cbn [Timestamps Values].
    rewrite E1, E2. cbn [fst snd ptr len cap].
    clear - HaT HaV B1. unfold allocated in *. repeat split; lia. }
  destruct (Copy_post (snd vh) a d Ha' Hd Hs) as (CT & CV & _ & _ & _ & _ & F).
  destruct Hs as (S1 & S2 & S3 & S4 & _).
  destruct Ha' as (HaT' & HaV').
  destruct (F _ HaT' S1 S3) as (UT & _). destruct (F _ HaV' S2 S4) as (UV & _).
  split; [congruence|]. split; [congruence|].
  split; [congruence|]. split; [congruence|].
  intros LT LV.
  destruct (Copy_headers (snd vh) a d) as (_ & _ & _ & _ & B). cbv zeta in B.
  rewrite B. unfold d. cbn [Timestamps Values]. rewrite E1, E2. cbn [cap].
  destruct (Nat.leb_spec (len (Timestamps a)) n); [|lia].
  destruct (Nat.leb_spec (len (Values a)) n); lia.
Qed.

(** X20.  Encoding a copy gives what encoding the source gives: for a
    destination apart from the source, [Encode] on the destination after
    [Copy] returns the block, or the error, that [Encode] on the source
    returned before, and the source still encodes to the same. *)
Theorem Encode_of_copy (enc : BlockEncoder) (b : bytes)
  (h : Heap) (a dst : Array) :
  allocatedArray h a -> allocatedArray h dst -> separate a dst ->
  let r := Copy a dst h in
  fst (Encode enc (fst r) b (snd r)) = fst (Encode enc a b h) /\
  fst (Encode enc a b (snd r)) = fst (Encode enc a b h).
Proof.
  intros Ha Hd Hs. cbv zeta.
  destruct (Copy_post h a dst Ha Hd Hs) as (CT & CV & _ & _ & _ & _ & F).
  destruct Ha as (HaT & HaV). destruct Hs as (S1 & S2 & S3 & S4 & _).
  destruct (F _ HaT S1 S3) as (UT & _). destruct (F _ HaV S2 S4) as (UV & _).
  unfold Encode. cbn [fst]. now rewrite CT, CV, UT, UV.
Qed.

End ArrayExtras.

(* ===================================================================== *)
(** * Part VI. Properties of the outbound client                          *)
(* ===================================================================== *)

Section ClientFacts.
Context `{ClientDeps}.
#[local] Open Scope list_scope.

Lemma httpClient_skipsVerify (scheme : string) (insecure : bool) :
  skipsVerify (Transport (httpClient scheme insecure))
  = String.eqb scheme "https" && insecure.
Proof.
  unfold httpClient.
  now destruct (String.eqb scheme "https" && insecure).
Qed.

(** X21.  The client built by [NewClient] skips the certificate check
    exactly when the scheme is "https" and the insecure flag is set: the
    flag alone, with any other scheme, gives the checking transport.
    Either way the transport is a [SpanTransport] around the one that does
    the round trip. *)
Theorem NewClient_insecure_only_for_https (scheme : string) (insecure : bool) :
  (skipsVerify (Transport (NewClient scheme insecure)) = true <->
   scheme = "https" /\ insecure = true) /\
  (Transport (NewClient scheme insecure) = DefaultTransportInsecure \/
   Transport (NewClient scheme insecure) = DefaultTransport) /\
  exists base, Transport (NewClient scheme insecure) = SpanTransport base.
Proof.
  unfold NewClient. split; [|split].
  - rewrite httpClient_skipsVerify, andb_true_iff.
    split; intros [E1 E2]; split; trivial; now apply String.eqb_eq.
  - unfold httpClient.
    destruct (String.eqb scheme "https" && insecure); cbn; auto.
  - unfold httpClient.
    destruct (String.eqb scheme "https" && insecure); cbn; eexists; reflexivity.
Qed.

(** X22.  [NewHTTPClient] fails with the error of [url.Parse] when the
    address does not parse.  Otherwise it hands [httpc.New] the five
    default options, then the auth-token option exactly when the token is
    not empty, then the caller's options in their order; the HTTP client
    among the defaults skips the certificate check exactly when the
    address has scheme "https" and the flag is set, while the flag itself
    is passed on as given. *)
Theorem NewHTTPClient_options (addr token : string) (insecure : bool)
  (opts : list ClientOptFn) :
  (forall e, url_Parse addr = Err e ->
     NewHTTPClient addr token insecure opts = Err e) /\
  (forall u, url_Parse addr = Ok u ->
     exists c auth,
       NewHTTPClient addr token insecure opts
       = httpc_New ([ WithAddr addr; WithContentType "application/json";
                      WithHTTPClient c; WithInsecureSkipVerify insecure;
                      WithStatusFn_CheckError ] ++ auth ++ opts) /\
       (skipsVerify (Transport c) = true <->
        Scheme u = "https" /\ insecure = true) /\
       (token = "" -> auth = []) /\
       (token <> "" -> auth = [WithAuthToken token])).
Proof.
  split.
  - intros e He. unfold NewHTTPClient. now rewrite He.
  - intros u Hu. unfold NewHTTPClient. rewrite Hu.
    exists (NewClient (Scheme u) insecure).
    destruct (String.eqb_spec token "") as [E|E]; cbn [negb].
    + exists []. split; [reflexivity|].
      split; [|split; [reflexivity | contradiction]].
      unfold NewClient. rewrite httpClient_skipsVerify, andb_true_iff.
      split; intros [E1 E2]; split; trivial; now apply String.eqb_eq.
    + exists [WithAuthToken token]. split; [now rewrite <- app_assoc|].
      split; [|split; [contradiction | reflexivity]].
      unfold NewClient. rewrite httpClient_skipsVerify, andb_true_iff.
      split; intros [E1 E2]; split; trivial; now apply String.eqb_eq.
Qed.

End ClientFacts.

(* ===================================================================== *)
(** * Part VII. The further properties at work                            *)
(* ===================================================================== *)

(** X1 at work: [precision=m] is answered at once, with no call. *)
Lemma bad_precision_stops_request_witness :
  run demoSystem
    (handleWrite (request [("org", "myorg"); ("bucket", "mybucket");
                           ("precision", "m")] 1))
    demoDir
  = {| value := apiErr (errPrecisionV2 "m"); final := demoDir; calls := [] |}.
Proof.
  apply (bad_precision_stops_request demoSystem demoDir
           (request [("org", "myorg"); ("bucket", "mybucket");
                     ("precision", "m")] 1));
    discriminate.
Defined.

(** X2 at work: with [precision=ns] the parser is called with "n". *)
Lemma parser_gets_normalized_precision_witness :
  let r := request [("org", "myorg"); ("bucket", "mybucket");
                    ("precision", "ns")] 1 in
  normalizePrecision (Get (Query r) "precision") = Ok "n" /\
  In "n" [""; "n"; "u"; "ms"; "s"].
Proof.
  cbv zeta.
  apply (parser_gets_normalized_precision demoSystem demoDir
           (request [("org", "myorg"); ("bucket", "mybucket");
                     ("precision", "ns")] 1)
           [Byte.x63; Byte.x70; Byte.x75] 1700000000%Z "n").
  vm_compute. auto 10.
Defined.

(** X3 at work: the request answered with 204 ends with its one write. *)
Lemma write_at_most_once_witness :
  let o := run demoSystem
             (handleWrite (request [("org", "myorg"); ("bucket", "mybucket")] 1))
             demoDir in
  exists cs orgID bucketID points,
    calls o = (cs ++ [call_WritePoints orgID bucketID points])%list /\
    filter isWrite cs = [].
Proof.
  cbv zeta.
  apply (proj1 (proj2 (write_at_most_once demoSystem demoDir
                         (request [("org", "myorg"); ("bucket", "mybucket")] 1)))).
  reflexivity.
Defined.

(** X4 at work: the point parsed from stream 1 is written to organization
    1, bucket 2. *)
Lemma write_dispatch_witness :
  let o := run demoSystem
             (handleWrite (request [("org", "myorg"); ("bucket", "mybucket")] 1))
             demoDir in
  nth_error (calls o) 5
  = Some (call_WritePoints 1%N 2%N
            [ {| measurement := "cpu"; tags := [];
                 fields := [("value", "1")]; timestamp := 1700000000%Z |} ]) /\
  length (calls o) = 6 /\
  value o = WriteHeader StatusNoContent.
Proof.
  cbv zeta.
  pose proof (write_dispatch demoSystem demoDir
                (request [("org", "myorg"); ("bucket", "mybucket")] 1) ""
                {| org_ID := 1%N; org_Name := "myorg" |}
                {| bucket_ID := 2%N; bucket_Name := "mybucket";
                   bucket_OrganizationID := 1%N |}
                eq_refl eq_refl eq_refl) as (C & _ & _ & V).
  rewrite C. split; [reflexivity|]. split; [reflexivity|].
  exact (V eq_refl).
Defined.

(** X5 at work: with nothing to resolve the tenant from but a database
    mapped twice, the body is not touched. *)
Lemma tenant_failure_reads_no_body_witness :
  let o := run demoSystem
             (handleWrite (request [("db", "dup"); ("rp", "autogen")] 1))
             demoDir in
  value o = apiErr (errNotFound "bucket") /\
  filter isBodyCall (calls o) = [] /\ filter isWrite (calls o) = [].
Proof.
  cbv zeta.
  assert (Ht : value (run demoSystem
                        (findTenant (request [("db", "dup"); ("rp", "autogen")] 1))
                        demoDir)
               = Err (errNotFound "bucket")) by (vm_compute; reflexivity).
  destruct (tenant_failure_reads_no_body demoSystem demoDir
              (request [("db", "dup"); ("rp", "autogen")] 1) ""
              (errNotFound "bucket") eq_refl Ht)
    as (V & _ & _ & _ & B & Wr).
  auto.
Defined.

(** X6 at work: stream 1 read as it is. *)
Lemma parsePoints_plain_witness :
  calls (run demoSystem (parsePoints (request [] 1) "ms") demoDir)
  = [ call_ReadFrom 1; call_Now;
      call_ParsePointsWithPrecision [Byte.x63; Byte.x70; Byte.x75]
        1700000000%Z "ms" ].
Proof.
  assert (Hh : Get (Header (request [] 1)) "Content-Encoding" <> "gzip")
    by discriminate.
  destruct (parsePoints_plain demoSystem demoDir (request [] 1) "ms" Hh)
    as (_ & P).
  exact (proj1 (proj2 (P [Byte.x63; Byte.x70; Byte.x75] eq_refl))).
Defined.

(** X7 at work: an empty stream announced as gzip fails in the gzip
    reader with "EOF" and no point, before anything is read; a stream that
    holds something is read through the gzip reader. *)
Lemma parsePoints_gzip_witness :
  (let o := run demoSystemGzip (parsePoints (gzipRequest [] 0) "") demoDir in
   value o = ([], Some EOF) /\ calls o = [call_gzipNewReader 0]) /\
  nth_error (calls (run demoSystemGzip (parsePoints (gzipRequest [] 1) "")
                      demoDir)) 1
  = Some (call_ReadFrom 1).
Proof.
  split.
  - destruct (parsePoints_gzip demoSystemGzip demoDir (gzipRequest [] 0) ""
                eq_refl) as (_ & P & _).
    destruct (P EOF eq_refl) as (V & C & _). split; assumption.
  - destruct (parsePoints_gzip demoSystemGzip demoDir (gzipRequest [] 1) ""
                eq_refl) as (_ & _ & P).
    exact (proj1 (P 1 eq_refl)).
Defined.

(** X9 at work: [bucket=mybucket] is looked up by name. *)
Lemma findBucket_by_name_witness :
  let o := run demoSystem (findBucket (request [("bucket", "mybucket")] 0) 1%N)
             demoDir in
  calls o = [ call_FindBucket {| bf_OrganizationID := Some 1%N; bf_ID := None;
                                 bf_Name := Some "mybucket" |} ] /\
  value o = Ok {| bucket_ID := 2%N; bucket_Name := "mybucket";
                  bucket_OrganizationID := 1%N |}.
Proof.
  cbv zeta.
  destruct (findBucket_by_name (H := demoPlatform) demoSystem demoDir
              (request [("bucket", "mybucket")] 0) 1%N errInvalidID eq_refl)
    as (C & V).
  split; [exact C|]. exact (f_equal fst V).
Defined.

(** X11 at work: with no [org] and no [org_id] the directory is asked with
    an empty filter. *)
Lemma findOrganization_without_org_id_witness :
  calls (run demoSystem (findOrganization (request [("bucket", "b")] 0)) demoDir)
  = [ call_FindOrganization {| of_ID := None; of_Name := None |} ] /\
  calls (run demoSystem
           (findOrganization (request [("org", "0000000000000001")] 0)) demoDir)
  = [ call_FindOrganization {| of_ID := Some 1%N; of_Name := None |} ].
Proof.
  split.
  - destruct (findOrganization_without_org_id demoSystem demoDir
                (request [("bucket", "b")] 0) eq_refl) as (P & _).
    exact (proj1 (P eq_refl)).
  - destruct (findOrganization_without_org_id demoSystem demoDir
                (request [("org", "0000000000000001")] 0) eq_refl)
      as (_ & P & _).
    refine (proj1 (P 1%N _ eq_refl)). discriminate.
Defined.

(** X12 at work: an unknown organization ends the current scheme without
    a bucket lookup; a known one is followed by the lookup of the bucket
    within it. *)
Lemma findTenantV2_org_then_bucket_witness :
  calls (run demoSystem
           (findTenantV2 (request [("org", "nobody"); ("bucket", "mybucket")] 0))
           demoDir)
  = [ call_FindOrganization {| of_ID := None; of_Name := Some "nobody" |} ] /\
  value (run demoSystem
           (findTenantV2 (request [("org", "myorg"); ("bucket", "mybucket")] 0))
           demoDir)
  = Ok ({| org_ID := 1%N; org_Name := "myorg" |},
        {| bucket_ID := 2%N; bucket_Name := "mybucket";
           bucket_OrganizationID := 1%N |}).
Proof.
  split.
  - destruct (findTenantV2_org_then_bucket demoSystem demoDir
                (request [("org", "nobody"); ("bucket", "mybucket")] 0))
      as (P & _).
    destruct (P (errNotFound "organization") eq_refl) as (_ & C & _).
    rewrite C. reflexivity.
  - destruct (findTenantV2_org_then_bucket demoSystem demoDir
                (request [("org", "myorg"); ("bucket", "mybucket")] 0))
      as (_ & P).
    destruct (P {| org_ID := 1%N; org_Name := "myorg" |} eq_refl)
      as (_ & _ & _ & V & _).
    exact (V _ eq_refl).
Defined.

(** X13 at work: an unreachable mapping directory ends the legacy scheme
    after one call; a mapping to an organization that is gone ends it
    after two. *)
Lemma findTenantV1_failures_witness :
  (let o := run demoSystem
              (findTenantV1 (request [("db", "mydb"); ("rp", "autogen")] 0))
              demoDirDown in
   value o = Err errUnavailable /\ length (calls o) = 1) /\
  (let o := run demoSystem
              (findTenantV1 (request [("db", "old"); ("rp", "autogen")] 0))
              demoDir in
   value o = Err (errNotFound "organization") /\ length (calls o) = 2).
Proof.
  split; cbv zeta.
  - destruct (findTenantV1_failures demoSystem demoDirDown
                (request [("db", "mydb"); ("rp", "autogen")] 0)) as (P & _).
    destruct (P errUnavailable eq_refl) as (V & C & _).
    rewrite C. split; [exact V | reflexivity].
  - destruct (findTenantV1_failures demoSystem demoDir
                (request [("db", "old"); ("rp", "autogen")] 0)) as (_ & P).
    destruct (P {| Database := "old"; RetentionPolicy := "autogen";
                   OrganizationID := 9%N; BucketID := 2%N |} eq_refl)
      as (Q & _).
    destruct (Q (errNotFound "organization") eq_refl) as (V & C & _).
    rewrite C. split; [exact V | reflexivity].
Defined.

(** X14 at work: three elements into a destination with room for four
    take no cell from the store; into one with room for two they do. *)
Lemma Copy_allocates_only_when_short_witness :
  brk (snd (Copy src1 roomyDst demoHeap)) = brk demoHeap /\
  ptr (Timestamps (fst (Copy src1 roomyDst demoHeap))) = 16 /\
  brk (snd (Copy src1 ownDst demoHeap)) <> brk demoHeap.
Proof.
  destruct (Copy_allocates_only_when_short demoHeap src1 roomyDst)
    as (B & T & _).
  destruct (Copy_allocates_only_when_short demoHeap src1 ownDst)
    as (B' & _).
  cbv zeta in *.
  split; [apply B; vm_compute; lia|].
  split; [apply T; vm_compute; lia|].
  intros E. apply B' in E. vm_compute in E. lia.
Defined.

(** X15 at work: after three elements were copied, one element is copied
    in place. *)
Lemma Copy_again_in_place_witness :
  let r1 := Copy src1 ownDst demoHeap in
  let r2 := Copy src2 (fst r1) (snd r1) in
  brk (snd r2) = brk (snd r1) /\
  ptr (Timestamps (fst r2)) = ptr (Timestamps (fst r1)).
Proof.
  cbv zeta.
  assert (LT : len (Timestamps src2) <= len (Timestamps src1))
    by (vm_compute; lia).
  assert (LV : len (Values src2) <= len (Values src1)) by (vm_compute; lia).
  destruct (Copy_again_in_place demoHeap src1 src2 ownDst LT LV)
    as (_ & B & P & _).
  split; assumption.
Defined.

(** X16 at work: the fourth cell of the roomy destination, past the three
    elements copied, keeps what it held. *)
Lemma Copy_writes_only_destination_witness :
  mem (snd (Copy src1 roomyDst demoHeap)) 19 = I64 119 /\
  mem (snd (Copy src1 roomyDst demoHeap)) 5 = I64 105.
Proof.
  split.
  - rewrite (Copy_writes_only_destination demoHeap src1 roomyDst 19);
      [reflexivity | vm_compute; lia ..].
  - rewrite (Copy_writes_only_destination demoHeap src1 roomyDst 5);
      [reflexivity | vm_compute; lia ..].
Defined.

(** X17 at work: the first source copied onto itself. *)
Lemma Copy_onto_itself_witness :
  fst (Copy src1 src1 demoHeap) = src1 /\
  brk (snd (Copy src1 src1 demoHeap)) = brk demoHeap.
Proof.
  assert (LT : len (Timestamps src1) <= cap (Timestamps src1))
    by (vm_compute; lia).
  assert (LV : len (Values src1) <= cap (Values src1)) by (vm_compute; lia).
  destruct (Copy_onto_itself demoHeap src1 LT LV) as (E & B & _).
  split; assumption.
Defined.

(** X18 at work: an array for three elements. *)
Lemma newArrayLen_zeroed_and_fresh_witness :
  exists a h',
    newArrayLen 3 demoHeap = Some (a, h') /\
    elems h' (Timestamps a) = [I64 0; I64 0; I64 0] /\
    elems h' (Values a) = [Val 0%Z; Val 0%Z; Val 0%Z] /\
    elems h' (Timestamps src1) = elems demoHeap (Timestamps src1).
Proof.
  assert (Hsz : (0 <= 3)%Z) by lia.
  destruct (newArrayLen_zeroed_and_fresh 3%Z demoHeap Hsz)
    as (a & h' & N & T & V & _ & _ & _ & _ & _ & F).
  exists a, h'.
  split; [exact N|]. split; [exact T|]. split; [exact V|].
  apply F. vm_compute. lia.
Defined.

(** X19 at work: the first source copied into an array built for four
    elements. *)
Lemma Construct_then_Copy_witness :
  exists d h1,
    newArrayLen 4 demoHeap = Some (d, h1) /\
    elems (snd (Copy src1 d h1)) (Timestamps (fst (Copy src1 d h1)))
    = [I64 100; I64 101; I64 102] /\
    brk (snd (Copy src1 d h1)) = brk h1.
Proof.
  assert (Hsz : (0 <= 4)%Z) by lia.
  assert (Ha : allocatedArray demoHeap src1) by (vm_compute; lia).
  destruct (Construct_then_Copy 4%Z demoHeap src1 Hsz Ha)
    as (d & h1 & N & C).
  cbv zeta in C. destruct C as (T & _ & _ & _ & B).
  exists d, h1.
  split; [exact N|]. split; [exact T|].
  apply B; vm_compute; lia.
Defined.

(** X20 at work: the copy of the first source encodes to the three bytes
    the source encodes to. *)
Lemma Encode_of_copy_witness :
  let r := Copy src1 ownDst demoHeap in
  fst (Encode demoEncoder (fst r) [] (snd r))
  = Ok [Byte.x2a; Byte.x2a; Byte.x2a].
Proof.
  cbv zeta.
  assert (Ha : allocatedArray demoHeap src1) by (vm_compute; lia).
  assert (Hd : allocatedArray demoHeap ownDst) by (vm_compute; lia).
  assert (Hs : separate src1 ownDst) by (vm_compute; lia).
  rewrite (proj1 (Encode_of_copy demoEncoder [] demoHeap src1 ownDst Ha Hd Hs)).
  reflexivity.
Defined.

(** X21 at work: the flag with scheme "http" gives the checking
    transport, with scheme "https" the other one. *)
Lemma NewClient_insecure_only_for_https_witness :
  skipsVerify (Transport (NewClient "https" true)) = true /\
  skipsVerify (Transport (NewClient "http" true)) <> true.
Proof.
  split.
  - apply (proj1 (NewClient_insecure_only_for_https "https" true)).
    split; reflexivity.
  - intros E.
    apply (proj1 (NewClient_insecure_only_for_https "http" true)) in E.
    destruct E as [E _]. discriminate E.
Defined.

(** X22 at work: a token and one option of the caller's; an address
    without a scheme. *)
Lemma NewHTTPClient_options_witness :
  (exists c,
     NewHTTPClient "https://localhost:8086" "secret" true [callerOpt 0]
     = Ok [ WithAddr "https://localhost:8086";
            WithContentType "application/json";
            WithHTTPClient c;
            WithInsecureSkipVerify true;
            WithStatusFn_CheckError;
            WithAuthToken "secret";
            callerOpt 0 ] /\
     skipsVerify (Transport c) = true) /\
  NewHTTPClient "localhost:8086" "secret" true [callerOpt 0]
  = Err (Errorf "missing protocol scheme").
Proof.
  split.
  - destruct (NewHTTPClient_options (H := demoClientDeps)
                "https://localhost:8086" "secret" true [callerOpt 0])
      as (_ & P).
    destruct (P {| Scheme := "https"; Host := "localhost:8086"; Path := "";
                   RawQuery := "" |} eq_refl) as (c & auth & E & S & _ & A).
    exists c. rewrite E, A by discriminate.
    split; [reflexivity|]. apply S. split; reflexivity.
  - destruct (NewHTTPClient_options (H := demoClientDeps)
                "localhost:8086" "secret" true [callerOpt 0]) as (P & _).
    exact (P (Errorf "missing protocol scheme") eq_refl).
Defined.

(** X23 at work: an empty stream announced as gzip is answered with
    status 200 without being read. *)
Lemma gzip_open_failure_answer_witness :
  let o := run demoSystemGzip
             (handleWrite (gzipRequest [("org", "myorg"); ("bucket", "mybucket")] 0))
             demoDir in
  value o = WriteHeader StatusOK /\
  filter (fun c => match c with call_ReadFrom _ => true | _ => false end)
         (calls o) = [].
Proof.
  cbv zeta.
  assert (Ht : value (run demoSystemGzip
                        (findTenant (gzipRequest [("org", "myorg");
                                                  ("bucket", "mybucket")] 0))
                        demoDir)
               = Ok ({| org_ID := 1%N; org_Name := "myorg" |},
                     {| bucket_ID := 2%N; bucket_Name := "mybucket";
                        bucket_OrganizationID := 1%N |}))
    by (vm_compute; reflexivity).
  destruct (gzip_open_failure_answer (H := demoPlatform) demoSystemGzip demoDir
              (gzipRequest [("org", "myorg"); ("bucket", "mybucket")] 0) ""
              _ _ EOF eq_refl eq_refl Ht eq_refl) as (V & C & _).
  split; [exact V|]. rewrite C. reflexivity.
Defined.
